(** * gencerts: text-on-image certificate generator (main.go)

    A shallow embedding of the Go program: the layout arithmetic of the
    main loop, [sanitizeFilename], [readNamesFromCSV], [getTextWidth] and
    the batch loop of [main] over an explicit world (file system, image
    heap, event trace).  Library calls the program makes (UTF-8 decoding
    of [range], [strings], [regexp], [image/draw], freetype) are modelled
    as far as the program depends on them; codecs, the font rasterizer and
    the color table are collaborators passed in an environment record. *)

From Stdlib Require Import ZArith Lia Bool List String Ascii.
From Stdlib Require Import Floats.SpecFloat.
From stdpp Require Import base option list strings gmap.

Local Open Scope string_scope.
Local Open Scope Z_scope.

(** ** Go machine integers *)

Module GoInt.

(** Two's complement wrap-around of a [bits]-wide signed integer. *)
Definition wrap (bits z : Z) : Z :=
  (z + 2 ^ (bits - 1)) mod 2 ^ bits - 2 ^ (bits - 1).

Definition in_range (bits z : Z) : bool :=
  (- 2 ^ (bits - 1) <=? z) && (z <? 2 ^ (bits - 1)).

(** [int] is 64 bits wide on the platforms the program is built for. *)
Definition int (z : Z) : Z := wrap 64 z.
Definition int32 (z : Z) : Z := wrap 32 z.
Definition uint8 (z : Z) : Z := z mod 256.

(** Go's [/] on integers truncates toward zero. *)
Definition div (a b : Z) : Z := int (Z.quot a b).

End GoInt.

(** ** float64 *)

Module Float64.

Definition prec : Z := 53.
Definition emax : Z := 1024.

Definition float64 : Type := spec_float.

(** [x * y], IEEE 754 binary64, round to nearest even. *)
Definition mul (x y : float64) : float64 := SFmul prec emax x y.

(** [float64(i)] for an integer [i]. *)
Definition of_int (i : Z) : float64 := binary_normalize prec emax i 0 false.

(** The float64 nearest to [n / 2^k]; used to write literals. *)
Definition dyadic (n k : Z) : float64 := binary_normalize prec emax n (- k) false.

(** The float [2^(-j)]: [1.0] for [j = 0], [0.5] for [j = 1]. *)
Definition pow2neg (j : Z) : float64 :=
  S754_finite false (Pos.iter xO 1%positive 52) (- 52 - j).

(** The integer part of a finite float: the fraction is discarded. *)
Definition trunc (f : float64) : option Z :=
  match f with
  | S754_zero _ => Some 0
  | S754_finite s m e =>
      let a := if 0 <=? e then Z.shiftl (Z.pos m) e else Z.shiftr (Z.pos m) (- e) in
      Some (if s then - a else a)
  | S754_infinity _ | S754_nan => None
  end.

(** [intN(f)]: truncation toward zero.  When the value does not fit the
    target type (or is NaN or infinite) Go leaves the result to the
    implementation; [ovf] is that implementation's answer. *)
Definition to_int (ovf : Z -> float64 -> Z) (bits : Z) (f : float64) : Z :=
  match trunc f with
  | Some t => if GoInt.in_range bits t then t else ovf bits f
  | None => ovf bits f
  end.

End Float64.

Abbreviation float64 := Float64.float64.

(** ** The layout step of the main loop (main.go, lines 137-142) *)

Section Layout.

Variable ovf : Z -> float64 -> Z.

(** [startY := imgHeight - int(float64(imgHeight)**heightPercent)] *)
Definition startY (imgHeight : Z) (heightPercent : float64) : Z :=
  GoInt.int (imgHeight
             - Float64.to_int ovf 64 (Float64.mul (Float64.of_int imgHeight) heightPercent)).

(** [startX]: the left-aligned value first, recomputed when centering. *)
Definition startX (imgWidth : Z) (widthPercent : float64)
           (centerText : bool) (textWidth : Z) : Z :=
  let startX := Float64.to_int ovf 64 (Float64.mul (Float64.of_int imgWidth) widthPercent) in
  if centerText
  then GoInt.int (Float64.to_int ovf 64 (Float64.mul (Float64.of_int imgWidth) widthPercent)
                  - GoInt.div textWidth 2)
  else startX.

End Layout.

(** What the specification writes instead of the conversion: rounding to the
    nearest integer (ties away from zero, as [math.Round]). *)
Module SpecLayout.

Definition round (f : float64) : option Z :=
  match f with
  | S754_zero _ => Some 0
  | S754_finite s m e =>
      let a := if 0 <=? e then Z.shiftl (Z.pos m) e
               else Z.shiftr (Z.pos m + 2 ^ (- e - 1)) (- e) in
      Some (if s then - a else a)
  | S754_infinity _ | S754_nan => None
  end.

Definition y_rounded (H : Z) (h : float64) : option Z :=
  r ← round (Float64.mul (Float64.of_int H) h); Some (H - r).

Definition x_rounded (W : Z) (w : float64) (center : bool) (t : Z) : option Z :=
  r ← round (Float64.mul (Float64.of_int W) w);
  Some (if center then r - Z.quot t 2 else r).

End SpecLayout.

(** ** Strings: bytes, runes and UTF-8

    A Go string is a sequence of bytes; [range] and [regexp] walk it rune
    by rune with [utf8.DecodeRuneInString]. *)

Module Utf8.

Definition RuneError : Z := 65533.
Definition RuneSelf : Z := 128.

Definition byte (c : ascii) : Z := Z.of_N (N_of_ascii c).
Definition chr (b : Z) : ascii := ascii_of_N (Z.to_N (b mod 256)).

Definition between (lo hi b : Z) : bool := (lo <=? b) && (b <=? hi).

(** The [first] table of package utf8: for a leading byte, the length of
    the sequence and the range accepted for the second byte. *)
Definition first (b0 : Z) : option (nat * Z * Z) :=
  if between 194 223 b0 then Some (2%nat, 128, 191)
  else if b0 =? 224 then Some (3%nat, 160, 191)
  else if between 225 236 b0 then Some (3%nat, 128, 191)
  else if b0 =? 237 then Some (3%nat, 128, 159)
  else if between 238 239 b0 then Some (3%nat, 128, 191)
  else if b0 =? 240 then Some (4%nat, 144, 191)
  else if between 241 243 b0 then Some (4%nat, 128, 191)
  else if b0 =? 244 then Some (4%nat, 128, 143)
  else None.

Definition cont (b : Z) : bool := between 128 191 b.

(** [utf8.DecodeRuneInString]: the first rune of [s] and its width in
    bytes; an invalid or short sequence yields [(RuneError, 1)]. *)
Definition DecodeRuneInString (s : string) : Z * nat :=
  match s with
  | EmptyString => (RuneError, 0%nat)
  | String c0 s1 =>
      let s0 := byte c0 in
      if s0 <? RuneSelf then (s0, 1%nat)
      else match first s0 with
      | None => (RuneError, 1%nat)
      | Some (sz, lo, hi) =>
          match s1 with
          | EmptyString => (RuneError, 1%nat)
          | String c1 s2 =>
              let b1 := byte c1 in
              if negb (between lo hi b1) then (RuneError, 1%nat)
              else if (sz <=? 2)%nat
              then (Z.lor (Z.shiftl (Z.land s0 31) 6) (Z.land b1 63), 2%nat)
              else match s2 with
              | EmptyString => (RuneError, 1%nat)
              | String c2 s3 =>
                  let b2 := byte c2 in
                  if negb (cont b2) then (RuneError, 1%nat)
                  else if (sz <=? 3)%nat
                  then (Z.lor (Z.lor (Z.shiftl (Z.land s0 15) 12)
                                     (Z.shiftl (Z.land b1 63) 6))
                              (Z.land b2 63), 3%nat)
                  else match s3 with
                  | EmptyString => (RuneError, 1%nat)
                  | String c3 _ =>
                      let b3 := byte c3 in
                      if negb (cont b3) then (RuneError, 1%nat)
                      else (Z.lor (Z.lor (Z.lor (Z.shiftl (Z.land s0 7) 18)
                                                (Z.shiftl (Z.land b1 63) 12))
                                         (Z.shiftl (Z.land b2 63) 6))
                                  (Z.land b3 63), 4%nat)
                  end
              end
          end
      end
  end.

Fixpoint take (n : nat) (s : string) : string :=
  match n, s with
  | S n', String c s' => String c (take n' s')
  | _, _ => EmptyString
  end.

Fixpoint drop (n : nat) (s : string) : string :=
  match n, s with
  | S n', String _ s' => drop n' s'
  | _, _ => s
  end.

(** The iteration of [for _, ch := range s]: each rune with the bytes it
    was decoded from.  [skip] counts the bytes of the current rune that
    are still to be passed over. *)
Fixpoint chunks_from (skip : nat) (s : string) : list (Z * string) :=
  match s with
  | EmptyString => []
  | String _ s' =>
      match skip with
      | S k => chunks_from k s'
      | O => let '(r, w) := DecodeRuneInString s in
             (r, take w s) :: chunks_from (Nat.pred w) s'
      end
  end.

Definition chunks (s : string) : list (Z * string) := chunks_from 0 s.

Definition runes (s : string) : list Z := map fst (chunks s).

(** [utf8.EncodeRune] (as [strings.Builder.WriteRune] uses it): runes out
    of range and surrogates are written as [RuneError]. *)
Definition EncodeRune (r : Z) : string :=
  let enc3 (r : Z) :=
    String (chr (Z.lor 224 (Z.shiftr r 12)))
      (String (chr (Z.lor 128 (Z.land (Z.shiftr r 6) 63)))
         (String (chr (Z.lor 128 (Z.land r 63))) EmptyString)) in
  if (0 <=? r) && (r <=? 127) then String (chr r) EmptyString
  else if (0 <=? r) && (r <=? 2047) then
    String (chr (Z.lor 192 (Z.shiftr r 6)))
      (String (chr (Z.lor 128 (Z.land r 63))) EmptyString)
  else if (r <? 0) || (1114111 <? r) || between 55296 57343 r then enc3 RuneError
  else if r <=? 65535 then enc3 r
  else
    String (chr (Z.lor 240 (Z.shiftr r 18)))
      (String (chr (Z.lor 128 (Z.land (Z.shiftr r 12) 63)))
         (String (chr (Z.lor 128 (Z.land (Z.shiftr r 6) 63)))
            (String (chr (Z.lor 128 (Z.land r 63))) EmptyString))).

End Utf8.

(** ** Package strings *)

Module Strings.

Fixpoint hasPrefix (p s : string) : bool :=
  match p, s with
  | EmptyString, _ => true
  | String a p', String b s' => if Ascii.eqb a b then hasPrefix p' s' else false
  | String _ _, EmptyString => false
  end.

(** [strings.ReplaceAll s old new] for a non-empty [old]: the
    non-overlapping occurrences of [old], leftmost first.  [skip] counts
    the bytes of a replaced occurrence still to be passed over. *)
Fixpoint replace_from (old new : string) (skip : nat) (s : string) : string :=
  match s with
  | EmptyString => EmptyString
  | String c s' =>
      match skip with
      | S k => replace_from old new k s'
      | O => if hasPrefix old s
             then new +:+ replace_from old new (Nat.pred (String.length old)) s'
             else String c (replace_from old new 0 s')
      end
  end.

(** With an empty [old], [new] is inserted before every rune and at the
    end of the string. *)
Definition ReplaceAll (s old new : string) : string :=
  match old with
  | EmptyString =>
      fold_right (fun ch acc => new +:+ snd ch +:+ acc) new (Utf8.chunks s)
  | String _ _ => replace_from old new 0 s
  end.

(** [unicode.ToLower] on ASCII; above ASCII it is table driven and the
    table [upper] is a collaborator. *)
Definition unicode_ToLower (table : Z -> Z) (r : Z) : Z :=
  if r <=? 127 then (if Utf8.between 65 90 r then r + 32 else r)
  else table r.

(** [strings.Map mapping s]: a negative result drops the character. *)
Definition Map (mapping : Z -> Z) (s : string) : string :=
  fold_right
    (fun ch acc =>
       let r := mapping (fst ch) in
       if 0 <=? r then Utf8.EncodeRune r +:+ acc else acc)
    EmptyString (Utf8.chunks s).

Fixpoint isASCII (s : string) : bool :=
  match s with
  | EmptyString => true
  | String c s' => (Utf8.byte c <? Utf8.RuneSelf) && isASCII s'
  end.

Fixpoint hasUpper (s : string) : bool :=
  match s with
  | EmptyString => false
  | String c s' => Utf8.between 65 90 (Utf8.byte c) || hasUpper s'
  end.

Fixpoint lowerBytes (s : string) : string :=
  match s with
  | EmptyString => EmptyString
  | String c s' =>
      let b := Utf8.byte c in
      String (if Utf8.between 65 90 b then Utf8.chr (b + 32) else c) (lowerBytes s')
  end.

(** [strings.ToLower]: a byte-wise fast path for ASCII-only strings,
    [Map unicode.ToLower] otherwise. *)
Definition ToLower (table : Z -> Z) (s : string) : string :=
  if isASCII s
  then (if hasUpper s then lowerBytes s else s)
  else Map (unicode_ToLower table) s.

End Strings.

(** ** Package regexp, as far as [sanitizeFilename] uses it *)

Module Regexp.

(** A character class [[...]] or [[^...]] of rune ranges. *)
Record class := { negated : bool; ranges : list (Z * Z) }.

(** The expressions the program compiles: one class, repeated [+]. *)
Inductive regexp := Plus (c : class).

Definition class_match (c : class) (r : Z) : bool :=
  xorb (negated c) (existsb (fun lh => Utf8.between (fst lh) (snd lh) r) (ranges c)).

(** [ReplaceAllString] for [c+] with a replacement free of [$]: every
    maximal run of matching runes is replaced by one [repl], everything
    else is copied byte for byte. *)
Fixpoint replace_runs (c : class) (repl : string) (inMatch : bool)
         (l : list (Z * string)) : string :=
  match l with
  | [] => EmptyString
  | (r, bytes) :: l' =>
      if class_match c r
      then (if inMatch then EmptyString else repl) +:+ replace_runs c repl true l'
      else bytes +:+ replace_runs c repl false l'
  end.

Definition ReplaceAllString (re : regexp) (src repl : string) : string :=
  match re with
  | Plus c => replace_runs c repl false (Utf8.chunks src)
  end.

End Regexp.

(** ** sanitizeFilename (main.go, lines 166-170) *)

(** [regexp.MustCompile(`[^a-zA-Z0-9_]+`)] *)
Definition reg : Regexp.regexp :=
  Regexp.Plus {| Regexp.negated := true;
                 Regexp.ranges := [(97, 122); (65, 90); (48, 57); (95, 95)] |}.

Definition sanitizeFilename (filename : string) : string :=
  let filename := Strings.ReplaceAll filename " " "_" in
  Regexp.ReplaceAllString reg filename "".

(** ** Errors *)

Inductive result (A : Type) : Type :=
| Ok (a : A)
| Err (e : string).
Arguments Ok {A} a.
Arguments Err {A} e.

(** ** Fonts and getTextWidth (main.go, lines 194-201) *)

(** What the program asks of a parsed [*truetype.Font]: the glyph index of
    a rune and the advance width of a glyph at a scale.  [scale] is a
    26.6 fixed-point number of pixels per em. *)
Record Font := {
  Index : Z -> Z;
  HMetric_AdvanceWidth : Z -> Z -> Z
}.

Section TextWidth.

Variable ovf : Z -> float64 -> Z.

(** [fixed.Int26_6(size)]: a plain conversion of the float to the 32-bit
    integer type, not a conversion of the value to 26.6 fixed point. *)
Definition Int26_6_of_float (size : float64) : Z := Float64.to_int ovf 32 size.

Definition getTextWidth (text : string) (font : Font) (size : float64) : Z :=
  fold_left
    (fun width ch =>
       let aw := HMetric_AdvanceWidth font (Int26_6_of_float size) (Index font ch) in
       GoInt.int (width + GoInt.int aw))
    (Utf8.runes text) 0.

End TextWidth.

(** Package truetype: [Font.HMetric] scales the advance width stored in
    font units, [scale * advance / unitsPerEm] rounded to nearest. *)
Module TrueType.

Definition scale (fUnitsPerEm x : Z) : Z :=
  GoInt.int32
    (Z.quot (if 0 <=? x then GoInt.int32 (x + Z.quot fUnitsPerEm 2)
             else GoInt.int32 (x - Z.quot fUnitsPerEm 2))
            fUnitsPerEm).

Definition font (fUnitsPerEm : Z) (cmap : Z -> Z) (unscaledAdvance : Z -> Z) : Font :=
  {| Index := cmap;
     HMetric_AdvanceWidth := fun s i =>
       scale fUnitsPerEm (GoInt.int32 (s * unscaledAdvance i)) |}.

End TrueType.

(** ** Package image and image/draw *)

Module Image.

Record Point := { X : Z; Y : Z }.
Record Rectangle := { Min : Point; Max : Point }.

Definition ZP : Point := {| X := 0; Y := 0 |}.
Definition ZR : Rectangle := {| Min := ZP; Max := ZP |}.

Definition Dx (r : Rectangle) : Z := X (Max r) - X (Min r).
Definition Dy (r : Rectangle) : Z := Y (Max r) - Y (Min r).

Definition Empty (r : Rectangle) : bool :=
  (X (Max r) <=? X (Min r)) || (Y (Max r) <=? Y (Min r)).

Definition In (x y : Z) (r : Rectangle) : bool :=
  (X (Min r) <=? x) && (x <? X (Max r)) && (Y (Min r) <=? y) && (y <? Y (Max r)).

Definition Add (r : Rectangle) (p : Point) : Rectangle :=
  {| Min := {| X := X (Min r) + X p; Y := Y (Min r) + Y p |};
     Max := {| X := X (Max r) + X p; Y := Y (Max r) + Y p |} |}.

Definition Intersect (r s : Rectangle) : Rectangle :=
  let r' := {| Min := {| X := Z.max (X (Min r)) (X (Min s));
                         Y := Z.max (Y (Min r)) (Y (Min s)) |};
               Max := {| X := Z.min (X (Max r)) (X (Max s));
                         Y := Z.min (Y (Max r)) (Y (Max s)) |} |} in
  if Empty r' then ZR else r'.

(** Four channels; 8 bits each in a pixel buffer, 16 bits each in the
    result of the [RGBA()] method of a color. *)
Record quad := { R : Z; G : Z; B : Z; A : Z }.

Definition transparent : quad := {| R := 0; G := 0; B := 0; A := 0 |}.

(** The images the PNG decoder can hand over, by how [draw.Draw] reads
    them: [*image.RGBA] (8-bit, alpha-premultiplied), [*image.NRGBA]
    (8-bit, not premultiplied), and every other type, read through
    [At(x, y).RGBA()] (16-bit, alpha-premultiplied). *)
Inductive Image :=
| RGBAImg (Rect : Rectangle) (Pix : Z -> Z -> quad)
| NRGBAImg (Rect : Rectangle) (Pix : Z -> Z -> quad)
| OtherImg (Rect : Rectangle) (At16 : Z -> Z -> quad).

Definition Bounds (img : Image) : Rectangle :=
  match img with
  | RGBAImg r _ | NRGBAImg r _ | OtherImg r _ => r
  end.

(** [image.NewRGBA(r)]: all pixels zero. *)
Definition NewRGBA (r : Rectangle) : Image := RGBAImg r (fun _ _ => transparent).

Definition map_quad (f : Z -> Z) (q : quad) : quad :=
  {| R := f (R q); G := f (G q); B := f (B q); A := f (A q) |}.

(** [color.RGBA.RGBA()] and [color.NRGBA.RGBA()]. *)
Definition RGBA_RGBA (c : quad) : quad := map_quad (fun v => v * 257) c.

Definition NRGBA_RGBA (c : quad) : quad :=
  {| R := R c * 257 * A c / 255; G := G c * 257 * A c / 255;
     B := B c * 257 * A c / 255; A := A c * 257 |}.

(** [img.At(x, y).RGBA()]; the zero color outside the bounds. *)
Definition At (img : Image) (x y : Z) : quad :=
  if In x y (Bounds img) then
    match img with
    | RGBAImg _ pix => RGBA_RGBA (pix x y)
    | NRGBAImg _ pix => NRGBA_RGBA (pix x y)
    | OtherImg _ at16 => at16 x y
    end
  else transparent.

Definition m : Z := 65535.

(** One destination pixel of [draw.Draw(dst, r, src, sp, draw.Over)] into
    an [*image.RGBA]: [drawCopyOver], [drawNRGBAOver] and the general
    [drawRGBA] with a nil mask. *)
Definition over (src : Image) (sx sy : Z) (d : quad) : quad :=
  match src with
  | RGBAImg _ pix =>
      let s := map_quad (fun v => v * 257) (pix sx sy) in
      let a := (m - A s) * 257 in
      {| R := GoInt.uint8 (Z.shiftr (R d * a / m + R s) 8);
         G := GoInt.uint8 (Z.shiftr (G d * a / m + G s) 8);
         B := GoInt.uint8 (Z.shiftr (B d * a / m + B s) 8);
         A := GoInt.uint8 (Z.shiftr (A d * a / m + A s) 8) |}
  | NRGBAImg _ pix =>
      let s := pix sx sy in
      let sa := A s * 257 in
      let sr := R s * sa / 255 in
      let sg := G s * sa / 255 in
      let sb := B s * sa / 255 in
      let a := (m - sa) * 257 in
      {| R := GoInt.uint8 (Z.shiftr (R d * a / m + sr) 8);
         G := GoInt.uint8 (Z.shiftr (G d * a / m + sg) 8);
         B := GoInt.uint8 (Z.shiftr (B d * a / m + sb) 8);
         A := GoInt.uint8 (Z.shiftr (A d * a / m + sa) 8) |}
  | OtherImg _ at16 =>
      let s := at16 sx sy in
      let a := (m - A s * m / m) * 257 in
      {| R := GoInt.uint8 (Z.shiftr ((R d * a + R s * m) / m) 8);
         G := GoInt.uint8 (Z.shiftr ((G d * a + G s * m) / m) 8);
         B := GoInt.uint8 (Z.shiftr ((B d * a + B s * m) / m) 8);
         A := GoInt.uint8 (Z.shiftr ((A d * a + A s * m) / m) 8) |}
  end.

(** [draw.Draw(dst, r, src, sp, draw.Over)]: [r] is clipped to both
    images, then every pixel of it is composed.  Only an [*image.RGBA]
    destination is modelled, the one the program draws on. *)
Definition Draw (dst : Image) (r : Rectangle) (src : Image) (sp : Point) : Image :=
  match dst with
  | RGBAImg rect pix =>
      let orig := Min r in
      let off := {| X := X orig - X sp; Y := Y orig - Y sp |} in
      let r' := Intersect (Intersect r rect) (Add (Bounds src) off) in
      if Empty r' then dst
      else RGBAImg rect
             (fun x y =>
                if In x y r'
                then over src (x - X off) (y - Y off) (pix x y)
                else pix x y)
  | _ => dst
  end.

End Image.

(** ** The world the program runs in *)

Inductive node :=
| File (content : string)
| Dir.

Inductive message :=
| Usage (line : string)
| ColorValue (c : Image.quad)
| Summary (count : nat) (width height : Z) (size : float64) (color : string)
          (widthPercent heightPercent : float64) (center : bool)
| Saved (filename : string)
| Failure (what detail : string).

(** Everything the program does to its surroundings, in order. *)
Inductive event :=
| Println (msg : message)                 (* standard output *)
| Fatalf (msg : message)                  (* standard error, then exit 1 *)
| Stat (path : string)
| Open (path : string)
| NewRGBA (l : nat) (r : Image.Rectangle)
| DrawOver (dst src : nat)
| DrawString (dst : nat) (name : string) (x y : Z)
| Create (path : string)
| Encode (path : string) (img : Image.Image).

Record World := {
  fs : gmap string node;          (* the file system *)
  heap : gmap nat Image.Image;    (* images, by address *)
  next : nat;                     (* the next free address *)
  trace : list event              (* latest event first *)
}.

(** The collaborators of the program: libraries and tables it calls but
    does not define. *)
Record Env := {
  colornames_Map : gmap string Image.quad;
  unicode_lower : Z -> Z;
  csv_ReadAll : string -> result (list (list string));
  image_Decode : string -> result Image.Image;
  freetype_ParseFont : string -> result Font;
  font_Kern : Font -> Z -> Z -> Z -> Z;
  (** Rasterize one glyph at a 26.6 point and compose it, through the
      clip rectangle, onto the pixels: the advance width and the new
      pixels, or an error. *)
  glyph_draw : Font -> Z -> Z -> Z * Z -> Image.Rectangle -> Image.quad ->
               (Z -> Z -> Image.quad) -> result (Z * (Z -> Z -> Image.quad));
  png_Encode : Image.Image -> result string;
  filepath_Join : string -> string -> string;
  creatable : string -> bool;
  conv_overflow : Z -> float64 -> Z
}.

(** The parsed command line (the package-level flag variables). *)
Record Flags := {
  csvFilePath : string;
  imagePath : string;
  outputPath : string;
  fontPath : string;
  fontSize : float64;
  srcColorName : string;
  widthPercent : float64;
  heightPercent : float64;
  centerText : bool
}.

(** ** A state monad with exit *)

Inductive exit := Returned | Exited (code : Z).

Inductive step (A : Type) :=
| Val (a : A)
| Stop (e : exit).
Arguments Val {A} a.
Arguments Stop {A} e.

Definition M (A : Type) : Type := World -> World * step A.

#[global] Instance M_ret : MRet M := fun A a w => (w, Val a).
#[global] Instance M_bind : MBind M := fun A B f ma w =>
  match ma w with
  | (w', Val a) => f a w'
  | (w', Stop e) => (w', Stop e)
  end.

Definition get : M World := fun w => (w, Val w).

Definition modify (f : World -> World) : M unit := fun w => (f w, Val tt).

Definition stop {A} (e : exit) : M A := fun w => (w, Stop e).

Definition emit (e : event) : M unit :=
  modify (fun w => {| fs := fs w; heap := heap w; next := next w;
                      trace := e :: trace w |}).

(** [log.Fatalf]: print, then [os.Exit(1)]. *)
Definition fatalf {A} (msg : message) : M A :=
  emit (Fatalf msg);; stop (Exited 1).

(** [os.Stat] followed by [os.IsNotExist(err)]. *)
Definition notExist (path : string) : M bool :=
  emit (Stat path);;
  w ← get;
  mret (bool_decide (fs w !! path = None)).

(** [os.Open]: a directory opens as well, but cannot be read. *)
Definition os_Open (path : string) : M (result node) :=
  emit (Open path);;
  w ← get;
  mret (match fs w !! path with
        | Some n => Ok n
        | None => Err "no such file or directory"
        end).

Definition contents (n : node) : result string :=
  match n with
  | File c => Ok c
  | Dir => Err "is a directory"
  end.

Definition set_file (path content : string) : M unit :=
  modify (fun w => {| fs := <[path := File content]> (fs w); heap := heap w;
                      next := next w; trace := trace w |}).

(** [os.Create]: the file exists and is empty afterwards. *)
Definition os_Create (env : Env) (path : string) : M (result unit) :=
  emit (Create path);;
  w ← get;
  match fs w !! path with
  | Some Dir => mret (Err "is a directory")
  | _ =>
      if creatable env path
      then set_file path "";; mret (Ok tt)
      else mret (Err "permission denied")
  end.

Definition alloc (img : Image.Image) : M nat :=
  w ← get;
  modify (fun w => {| fs := fs w; heap := <[next w := img]> (heap w);
                      next := S (next w); trace := trace w |});;
  mret (next w).

Definition load (l : nat) : M Image.Image :=
  w ← get;
  mret (default (Image.NewRGBA Image.ZR) (heap w !! l)).

Definition store (l : nat) (img : Image.Image) : M unit :=
  modify (fun w => {| fs := fs w; heap := <[l := img]> (heap w);
                      next := next w; trace := trace w |}).

(** ** readNamesFromCSV (main.go, lines 173-191) *)

Definition csv_records (env : Env) (file : node) : result (list (list string)) :=
  match contents file with
  | Ok content => csv_ReadAll env content
  | Err err => Err err
  end.

Definition readNamesFromCSV (env : Env) (filepath : string) : M (result (list string)) :=
  file ← os_Open filepath;
  match file with
  | Err err => mret (Err err)
  | Ok file =>
      match csv_records env file with
      | Err err => mret (Err err)
      | Ok records =>
          mret (Ok (fold_left (fun names record => (names ++ record)%list) records []))
      end
  end.

(** ** Package freetype: the drawing context *)

Record Context := {
  c_f : Font;
  c_fontSize : float64;
  c_dpi : float64;
  c_src : Image.quad;
  c_clip : Image.Rectangle;
  c_dst : nat;
  c_scale : Z
}.

Module Freetype.

(** The constant [64.0 / 72.0]. *)
Definition c64_72 : float64 :=
  SFdiv Float64.prec Float64.emax (Float64.of_int 64) (Float64.of_int 72).

(** [Context.recalc]: [scale = fixed.Int26_6(fontSize * dpi * (64.0 / 72.0))]. *)
Definition recalc (ovf : Z -> float64 -> Z) (fontSize dpi : float64) : Z :=
  Float64.to_int ovf 32 (Float64.mul (Float64.mul fontSize dpi) c64_72).

(** [freetype.Pt(x, y)]: the pixel coordinates as 26.6 fixed point. *)
Definition Pt (x y : Z) : Z * Z :=
  (GoInt.int32 (GoInt.int (Z.shiftl x 6)), GoInt.int32 (GoInt.int (Z.shiftl y 6))).

(** The loop of [Context.DrawString] over the runes of the string (no
    hinting): kerning against the previous glyph, then the glyph.  The
    pixels keep whatever was drawn before an error. *)
Fixpoint draw_runes (env : Env) (c : Context) (rs : list Z) (prev : option Z)
         (p : Z * Z) (pix : Z -> Z -> Image.quad)
  : (Z -> Z -> Image.quad) * result (Z * Z) :=
  match rs with
  | [] => (pix, Ok p)
  | rune :: rs' =>
      let index := Index (c_f c) rune in
      let p := match prev with
               | Some pr =>
                   (GoInt.int32 (fst p + font_Kern env (c_f c) (c_scale c) pr index), snd p)
               | None => p
               end in
      match glyph_draw env (c_f c) (c_scale c) index p (c_clip c) (c_src c) pix with
      | Err err => (pix, Err err)
      | Ok (advanceWidth, pix') =>
          draw_runes env c rs' (Some index)
                     (GoInt.int32 (fst p + advanceWidth), snd p) pix'
      end
  end.

(** [Context.DrawString] on an image value. *)
Definition draw_string (env : Env) (c : Context) (s : string) (p : Z * Z)
           (dst : Image.Image) : Image.Image * result (Z * Z) :=
  match dst with
  | Image.RGBAImg rect pix =>
      let '(pix', r) := draw_runes env c (Utf8.runes s) None p pix in
      (Image.RGBAImg rect pix', r)
  | _ => (dst, Err "unsupported destination")
  end.

End Freetype.

(** [c.DrawString(name, pt)] on the image at address [c.dst]. *)
Definition DrawString_at (env : Env) (c : Context) (s : string) (p : Z * Z)
  : M (result (Z * Z)) :=
  emit (DrawString (c_dst c) s (fst p) (snd p));;
  dst ← load (c_dst c);
  let '(dst', r) := Freetype.draw_string env c s p dst in
  store (c_dst c) dst';;
  mret r.

(** [draw.Draw(dst, r, src, sp, draw.Over)] on addresses. *)
Definition Draw_at (dst : nat) (r : Image.Rectangle) (src : nat) (sp : Image.Point) : M unit :=
  emit (DrawOver dst src);;
  d ← load dst;
  s ← load src;
  store dst (Image.Draw d r s sp).

(** [image.NewRGBA(r)]: a fresh image. *)
Definition NewRGBA_at (r : Image.Rectangle) : M nat :=
  l ← alloc (Image.NewRGBA r);
  emit (NewRGBA l r);;
  mret l.

(** [png.Encode(outputFile, img)]. *)
Definition Encode_at (env : Env) (path : string) (l : nat) : M (result unit) :=
  img ← load l;
  emit (Encode path img);;
  match png_Encode env img with
  | Ok bytes => set_file path bytes;; mret (Ok tt)
  | Err err => mret (Err err)
  end.

(** ** main (main.go, lines 35-163) *)

Fixpoint forEach {A} (l : list A) (body : A -> M unit) : M unit :=
  match l with
  | [] => mret tt
  | a :: l' => body a;; forEach l' body
  end.

(** The body of the loop over the names (lines 115-162). *)
Definition loop_body (env : Env) (flags : Flags) (srcColor : Image.quad)
           (originalImg : nat) (fontType : Font) (imgWidth imgHeight : Z)
           (name : string) : M unit :=
  let ovf := conv_overflow env in
  (* Create a copy of the original image *)
  orig ← load originalImg;
  imgCopy ← NewRGBA_at (Image.Bounds orig);
  copy ← load imgCopy;
  Draw_at imgCopy (Image.Bounds copy) originalImg Image.ZP;;
  copy ← load imgCopy;
  let c := {| c_f := fontType;
              c_fontSize := fontSize flags;
              c_dpi := Float64.of_int 72;
              c_src := srcColor;
              c_clip := Image.Bounds copy;
              c_dst := imgCopy;
              c_scale := Freetype.recalc ovf (fontSize flags) (Float64.of_int 72) |} in
  (* Calculate the starting point to center or align the text *)
  let textWidth := getTextWidth ovf name fontType (fontSize flags) in
  let startY := startY ovf imgHeight (heightPercent flags) in
  let startX := startX ovf imgWidth (widthPercent flags) (centerText flags) textWidth in
  let pt := Freetype.Pt startX startY in
  r ← DrawString_at env c name pt;
  match r with
  | Err err => fatalf (Failure "Error drawing name on image" err)
  | Ok _ =>
      (* Save to a unique file *)
      let filename := filepath_Join env (outputPath flags) (sanitizeFilename name +:+ ".png") in
      r ← os_Create env filename;
      match r with
      | Err err => fatalf (Failure "Error creating output file" err)
      | Ok _ =>
          r ← Encode_at env filename imgCopy;
          match r with
          | Err err => fatalf (Failure "Error encoding PNG file" err)
          | Ok _ => emit (Println (Saved filename))
          end
      end
  end.

(** Lines 63-64: the color name is lowercased, then looked up. *)
Definition lookupColor (env : Env) (name : string) : option Image.quad :=
  colornames_Map env !! Strings.ToLower (unicode_lower env) name.

Definition main (env : Env) (flags : Flags) : M unit :=
  (* Check if the required inputs are provided *)
  if (String.eqb (csvFilePath flags) "" || String.eqb (imagePath flags) ""
      || String.eqb (fontPath flags) "")%bool
  then
    emit (Println (Usage "Please provide the required inputs: names, image, and font"));;
    emit (Println (Usage "Example: gencerts -names names.csv -image image.png -font font.ttf"));;
    emit (Println (Usage "Run gencerts -h for more information"));;
    stop Returned
  else
  (* Check if the provided inputs are valid *)
  missing ← notExist (csvFilePath flags);
  (if missing : bool
   then fatalf (Failure "The names CSV file does not exist" (csvFilePath flags))
   else mret tt);;
  missing ← notExist (imagePath flags);
  (if missing : bool
   then fatalf (Failure "The image file does not exist" (imagePath flags))
   else mret tt);;
  missing ← notExist (fontPath flags);
  (if missing : bool
   then fatalf (Failure "The font file does not exist" (fontPath flags))
   else mret tt);;
  missing ← notExist (outputPath flags);
  (if missing : bool
   then fatalf (Failure "Error: output directory path does not exist" "")
   else mret tt);;
  (* Validate the source color name *)
  let lookup := lookupColor env (srcColorName flags) in
  let srcColorName := Strings.ToLower (unicode_lower env) (srcColorName flags) in
  let srcColor := default Image.transparent lookup in
  emit (Println (ColorValue srcColor));;
  (if bool_decide (lookup = None)
   then fatalf (Failure "Invalid color name" srcColorName)
   else mret tt);;
  (* Read the names from the CSV file *)
  r ← readNamesFromCSV env (csvFilePath flags);
  match r with
  | Err err => fatalf (Failure "Error reading CSV file" err)
  | Ok names =>
  (* Load the original image *)
  r ← os_Open (imagePath flags);
  match r with
  | Err err => fatalf (Failure "Error loading image file" err)
  | Ok file =>
  match (match contents file with Ok bytes => image_Decode env bytes | Err err => Err err end) with
  | Err err => fatalf (Failure "Error decoding image file" err)
  | Ok img =>
  originalImg ← alloc img;
  (* Get the original image width and height *)
  let imgWidth := Image.Dx (Image.Bounds img) in
  let imgHeight := Image.Dy (Image.Bounds img) in
  (* Load the font file *)
  r ← os_Open (fontPath flags);
  match (match r with Ok file => contents file | Err err => Err err end) with
  | Err err => fatalf (Failure "Error reading font file" err)
  | Ok fontBytes =>
  (* Determine the font type *)
  match freetype_ParseFont env fontBytes with
  | Err err => fatalf (Failure "Error reading font type" err)
  | Ok fontType =>
  (* Print out the input summary *)
  emit (Println (Summary (length names) imgWidth imgHeight (fontSize flags) srcColorName
                         (widthPercent flags) (heightPercent flags) (centerText flags)));;
  (* Loop through each name and print it on a new image *)
  forEach names (loop_body env flags srcColor originalImg fontType imgWidth imgHeight)
  end end end end end.

(** ** The compositor as a function of the background alone

    What one iteration draws, computed from the background image value
    without any heap: the copy, then the text. *)

Definition copy_of (bg : Image.Image) : Image.Image :=
  let copy := Image.NewRGBA (Image.Bounds bg) in
  Image.Draw copy (Image.Bounds copy) bg Image.ZP.

Definition render (env : Env) (flags : Flags) (srcColor : Image.quad)
           (bg : Image.Image) (fontType : Font) (name : string)
  : Image.Image * result (Z * Z) :=
  let ovf := conv_overflow env in
  let copy := copy_of bg in
  let c := {| c_f := fontType;
              c_fontSize := fontSize flags;
              c_dpi := Float64.of_int 72;
              c_src := srcColor;
              c_clip := Image.Bounds copy;
              c_dst := 0%nat;
              c_scale := Freetype.recalc ovf (fontSize flags) (Float64.of_int 72) |} in
  let imgWidth := Image.Dx (Image.Bounds bg) in
  let imgHeight := Image.Dy (Image.Bounds bg) in
  let textWidth := getTextWidth ovf name fontType (fontSize flags) in
  let y := startY ovf imgHeight (heightPercent flags) in
  let x := startX ovf imgWidth (widthPercent flags) (centerText flags) textWidth in
  Freetype.draw_string env c name (Freetype.Pt x y) copy.

(** An implementation's answer for conversions that do not fit: the
    "integer indefinite" value of the amd64 conversion instruction. *)
Definition indefinite : Z -> float64 -> Z := fun bits _ => - 2 ^ (bits - 1).

(** ** Vocabulary of the statements about runs *)

(** Events that neither read a file's contents, nor touch an image, nor
    write: file-existence checks and console output. *)
Definition quiet (e : event) : bool :=
  match e with
  | Println _ | Fatalf _ | Stat _ => true
  | _ => false
  end.

(** The address an event draws on, if it draws. *)
Definition draws_on (e : event) : option nat :=
  match e with
  | DrawOver dst _ => Some dst
  | DrawString dst _ _ _ => Some dst
  | _ => None
  end.

(** The rasters handed to the PNG encoder, oldest first. *)
Fixpoint encoded_rev (t : list event) : list (string * Image.Image) :=
  match t with
  | [] => []
  | Encode path img :: t' => (path, img) :: encoded_rev t'
  | _ :: t' => encoded_rev t'
  end.

Definition encoded (w : World) : list (string * Image.Image) := rev (encoded_rev (trace w)).

(** The file name of a certificate (line 151). *)
Definition output_path (env : Env) (flags : Flags) (name : string) : string :=
  filepath_Join env (outputPath flags) (sanitizeFilename name +:+ ".png").

(** The certificate of one name, from the background alone: its path and
    its raster. *)
Definition certificate (env : Env) (flags : Flags) (color : Image.quad)
           (bg : Image.Image) (font : Font) (name : string) : string * Image.Image :=
  (output_path env flags name, fst (render env flags color bg font name)).

(** Every drawing event of [new] draws on an address from [from] on. *)
Definition draws_fresh (from : nat) (new : list event) : Prop :=
  Forall (fun e => forall l, draws_on e = Some l -> (from <= l)%nat) new.

(** Two strings that differ at most in the case of ASCII letters. *)
Definition same_letter (a b : ascii) : bool :=
  let x := Utf8.byte a in
  let y := Utf8.byte b in
  (x =? y)
  || (Utf8.between 65 90 x && (y =? x + 32))
  || (Utf8.between 65 90 y && (x =? y + 32)).

Fixpoint same_letters (s t : string) : bool :=
  match s, t with
  | EmptyString, EmptyString => true
  | String a s', String b t' => same_letter a b && same_letters s' t'
  | _, _ => false
  end.

(** Two strings that differ at most in the case of letters, ASCII or not:
    rune by rune, the two runes have the same lower-case form under
    [unicode.ToLower] (with its case table [table] above ASCII). *)
Definition same_case (table : Z -> Z) (s t : string) : Prop :=
  Forall2 (fun r1 r2 => Strings.unicode_ToLower table r1 = Strings.unicode_ToLower table r2)
          (Utf8.runes s) (Utf8.runes t).

(** A color whose channels all fit 8 bits: [c * 257] per channel. *)
Definition eight_bit (q : Image.quad) : Prop :=
  exists c : Image.quad,
    (0 <= Image.R c <= 255) /\ (0 <= Image.G c <= 255)
    /\ (0 <= Image.B c <= 255) /\ (0 <= Image.A c <= 255)
    /\ q = Image.map_quad (fun v => v * 257) c.

(** ** A concrete environment, for running the model on examples *)

Module Demo.

(** A reader without quoting: one record per line, fields separated by
    commas, empty lines skipped. *)
Fixpoint split_on (sep : ascii) (cur : string) (s : string) : list string :=
  match s with
  | EmptyString => [cur]
  | String c s' =>
      if Ascii.eqb c sep then cur :: split_on sep EmptyString s'
      else split_on sep (cur +:+ String c EmptyString) s'
  end.

Definition newline : ascii := Utf8.chr 10.

Definition read_all (content : string) : result (list (list string)) :=
  Ok (map (split_on ","%char EmptyString)
          (filter (fun line => negb (String.eqb line EmptyString))
                  (split_on newline EmptyString content))).

(** A font of 1000 units per em: the two-em dash U+2E3A is glyph 1 and
    advances 2000 units, every other rune is glyph 0 and advances 500. *)
Definition font : Font :=
  TrueType.font 1000 (fun r => if r =? 11834 then 1 else 0)
                (fun i => if i =? 1 then 2000 else 500).

Definition two_em_dash : string :=
  String (Utf8.chr 226) (String (Utf8.chr 184) (String (Utf8.chr 186) EmptyString)).

Definition black : Image.quad := {| Image.R := 0; Image.G := 0; Image.B := 0; Image.A := 255 |}.
Definition red : Image.quad := {| Image.R := 255; Image.G := 0; Image.B := 0; Image.A := 255 |}.

Definition colors : gmap string Image.quad := <["black" := black]> (<["red" := red]> ∅).

(** A rasterizer that marks the pixel under the pen, inside the clip. *)
Definition mark_glyph (f : Font) (scale index : Z) (p : Z * Z) (clip : Image.Rectangle)
           (src : Image.quad) (pix : Z -> Z -> Image.quad)
  : result (Z * (Z -> Z -> Image.quad)) :=
  let px := Z.shiftr (fst p) 6 in
  let py := Z.shiftr (snd p) 6 in
  Ok (HMetric_AdvanceWidth f scale index,
      fun x y => if (x =? px) && (y =? py) && Image.In x y clip then src else pix x y).

Definition rect (w h : Z) : Image.Rectangle :=
  {| Image.Min := Image.ZP; Image.Max := {| Image.X := w; Image.Y := h |} |}.

(** A 2 x 2 opaque white background, as an 8-bit RGBA image. *)
Definition white : Image.quad :=
  {| Image.R := 255; Image.G := 255; Image.B := 255; Image.A := 255 |}.
Definition background : Image.Image := Image.RGBAImg (rect 2 2) (fun _ _ => white).

(** A 1 x 1 background whose pixel is translucent and not premultiplied. *)
Definition faint : Image.quad :=
  {| Image.R := 200; Image.G := 100; Image.B := 50; Image.A := 1 |}.
Definition translucent : Image.Image := Image.NRGBAImg (rect 1 1) (fun _ _ => faint).

Definition env : Env :=
  {| colornames_Map := colors;
     unicode_lower := fun r => r;
     csv_ReadAll := read_all;
     image_Decode := fun _ => Ok background;
     freetype_ParseFont := fun _ => Ok font;
     font_Kern := fun _ _ _ _ => 0;
     glyph_draw := mark_glyph;
     png_Encode := fun _ => Ok "PNG";
     filepath_Join := fun dir file => dir +:+ "/" +:+ file;
     creatable := fun _ => true;
     conv_overflow := indefinite |}.

Definition flags (color : string) : Flags :=
  {| csvFilePath := "names.csv";
     imagePath := "image.png";
     outputPath := "out";
     fontPath := "font.ttf";
     fontSize := Float64.of_int 75;
     srcColorName := color;
     widthPercent := Float64.dyadic 1 1;
     heightPercent := Float64.dyadic 1 1;
     centerText := false |}.

Definition names_csv : string :=
  "Alice Jones" +:+ String newline
    ("Bob Smith" +:+ String newline ("Charlie Brown" +:+ String newline EmptyString)).

Definition world : World :=
  {| fs := <["names.csv" := File names_csv]>
             (<["image.png" := File "png"]>
                (<["font.ttf" := File "ttf"]> (<["out" := Dir]> ∅)));
     heap := ∅;
     next := 0;
     trace := [] |}.

(** The world once the background is decoded: the image at address 0. *)
Definition loaded : World :=
  {| fs := fs world; heap := <[0%nat := background]> ∅; next := 1; trace := [] |}.

End Demo.

(** ** Vocabulary of the statements about strings *)

(** The bytes of [[A-Za-z0-9_]]. *)
Definition word_byte (c : ascii) : bool :=
  let b := Utf8.byte c in
  Utf8.between 97 122 b || Utf8.between 65 90 b || Utf8.between 48 57 b || (b =? 95).

Definition space_to_underscore (c : ascii) : ascii :=
  if Ascii.eqb c " " then "_"%char else c.

(** The bytes that only occur in multi-byte or invalid UTF-8. *)
Definition high_byte (c : ascii) : bool := 128 <=? Utf8.byte c.

Fixpoint map_bytes (f : ascii -> ascii) (s : string) : string :=
  match s with
  | EmptyString => EmptyString
  | String c s' => String (f c) (map_bytes f s')
  end.

Fixpoint filter_bytes (P : ascii -> bool) (s : string) : string :=
  match s with
  | EmptyString => EmptyString
  | String c s' => if P c then String c (filter_bytes P s') else filter_bytes P s'
  end.

Fixpoint all_bytes (P : ascii -> bool) (s : string) : bool :=
  match s with
  | EmptyString => true
  | String c s' => P c && all_bytes P s'
  end.

(** ** Vocabulary of the statements about whole runs *)

(** The events of the setup phase of [main]: existence checks, console
    lines and opening the inputs. *)
Definition setup_event (e : event) : bool :=
  match e with
  | Stat _ | Println _ | Open _ => true
  | _ => false
  end.

(** Existence checks and the fatal diagnostic only. *)
Definition check_event (e : event) : bool :=
  match e with
  | Stat _ | Fatalf _ => true
  | _ => false
  end.

(** Events that write no file and touch no image: the setup events and
    the fatal diagnostic. *)
Definition harmless_event (e : event) : bool :=
  match e with
  | Stat _ | Println _ | Open _ | Fatalf _ => true
  | _ => false
  end.

Definition is_err {A} (r : result A) : bool :=
  match r with
  | Err _ => true
  | Ok _ => false
  end.

(** What [main] gets from each of its three input files: the bytes at the
    path, handed to the parser of that input. *)
Definition input (w : World) (path : string) : result string :=
  match fs w !! path with
  | Some n => contents n
  | None => Err "no such file or directory"
  end.

Definition input_names (env : Env) (flags : Flags) (w : World) : result (list (list string)) :=
  match input w (csvFilePath flags) with
  | Ok content => csv_ReadAll env content
  | Err err => Err err
  end.

Definition input_image (env : Env) (flags : Flags) (w : World) : result Image.Image :=
  match input w (imagePath flags) with
  | Ok bytes => image_Decode env bytes
  | Err err => Err err
  end.

Definition input_font (env : Env) (flags : Flags) (w : World) : result Font :=
  match input w (fontPath flags) with
  | Ok bytes => freetype_ParseFont env bytes
  | Err err => Err err
  end.

(** The flags with another color name. *)
Definition with_color (flags : Flags) (color : string) : Flags :=
  {| csvFilePath := csvFilePath flags;
     imagePath := imagePath flags;
     outputPath := outputPath flags;
     fontPath := fontPath flags;
     fontSize := fontSize flags;
     srcColorName := color;
     widthPercent := widthPercent flags;
     heightPercent := heightPercent flags;
     centerText := centerText flags |}.

(** The bytes the encoder produces for a raster (nothing on an error). *)
Definition encoding (env : Env) (img : Image.Image) : string :=
  match png_Encode env img with
  | Ok bytes => bytes
  | Err _ => EmptyString
  end.

(** The file system after writing the certificates of [names] in order:
    a later name with the same path replaces an earlier one. *)
Definition batch_files (env : Env) (flags : Flags) (color : Image.quad)
           (bg : Image.Image) (font : Font) (names : list string)
           (m : gmap string node) : gmap string node :=
  fold_left
    (fun m name =>
       <[output_path env flags name :=
           File (encoding env (snd (certificate env flags color bg font name)))]> m)
    names m.

(** Example flags: without a names file; with an output directory that
    does not exist; with a directory as the names file. *)
Definition flags_at (names output : string) : Flags :=
  {| csvFilePath := names;
     imagePath := "image.png";
     outputPath := output;
     fontPath := "font.ttf";
     fontSize := Float64.of_int 75;
     srcColorName := "black";
     widthPercent := Float64.dyadic 1 1;
     heightPercent := Float64.dyadic 1 1;
     centerText := false |}.

(** The example environment with a case table that knows the Kelvin sign
    U+212A, whose lower-case form is the letter k. *)
Definition kelvin_env : Env :=
  {| colornames_Map := colornames_Map Demo.env;
     unicode_lower := fun r => if r =? 8490 then 107 else r;
     csv_ReadAll := csv_ReadAll Demo.env;
     image_Decode := image_Decode Demo.env;
     freetype_ParseFont := freetype_ParseFont Demo.env;
     font_Kern := font_Kern Demo.env;
     glyph_draw := glyph_draw Demo.env;
     png_Encode := png_Encode Demo.env;
     filepath_Join := filepath_Join Demo.env;
     creatable := creatable Demo.env;
     conv_overflow := conv_overflow Demo.env |}.

(** The name "blac" followed by the Kelvin sign (bytes E2 84 AA). *)
Definition blac_kelvin : string :=
  "blac" +:+ String (Utf8.chr 226) (String (Utf8.chr 132) (String (Utf8.chr 170) EmptyString)).

(** The example environment with a rasterizer that fails on every glyph. *)
Definition broken_env : Env :=
  {| colornames_Map := colornames_Map Demo.env;
     unicode_lower := unicode_lower Demo.env;
     csv_ReadAll := csv_ReadAll Demo.env;
     image_Decode := image_Decode Demo.env;
     freetype_ParseFont := freetype_ParseFont Demo.env;
     font_Kern := font_Kern Demo.env;
     glyph_draw := fun _ _ _ _ _ _ _ => Err "corrupt font";
     png_Encode := png_Encode Demo.env;
     filepath_Join := filepath_Join Demo.env;
     creatable := creatable Demo.env;
     conv_overflow := conv_overflow Demo.env |}.

(** * Properties *)

(** ** Machine integers *)

Lemma wrap_small bits z :
  0 < bits -> - 2 ^ (bits - 1) <= z < 2 ^ (bits - 1) -> GoInt.wrap bits z = z.
Proof.
  intros Hb Hz. unfold GoInt.wrap.
  assert (E : 2 ^ bits = 2 * 2 ^ (bits - 1)).
  { replace bits with (Z.succ (bits - 1)) at 1 by lia. apply Z.pow_succ_r. lia. }
  rewrite Z.mod_small; lia.
Qed.

Lemma int_small z : - 2 ^ 63 <= z < 2 ^ 63 -> GoInt.int z = z.
Proof. intros Hz. unfold GoInt.int. apply wrap_small; [lia | exact Hz]. Qed.

Lemma in_range_spec bits z :
  GoInt.in_range bits z = true <-> - 2 ^ (bits - 1) <= z < 2 ^ (bits - 1).
Proof. unfold GoInt.in_range. rewrite andb_true_iff, Z.leb_le, Z.ltb_lt. tauto. Qed.

(** ** float64: exact products *)

Section FloatFacts.

Local Abbreviation prec := Float64.prec.
Local Abbreviation emax := Float64.emax.

Lemma iter_pos_iter {A} (f : A -> A) p x : SpecFloat.iter_pos f p x = Pos.iter f x p.
Proof.
  revert x. induction p as [p IH|p IH|]; intros x; simpl.
  - rewrite !IH. rewrite <- !Pos.iter_swap. reflexivity.
  - rewrite !IH. reflexivity.
  - reflexivity.
Qed.

Lemma digits2_iter_xO q k :
  Z.pos (digits2_pos (Pos.iter xO q k)) = Z.pos (digits2_pos q) + Z.pos k.
Proof.
  induction k as [|k IH] using Pos.peano_ind.
  - simpl. lia.
  - rewrite Pos.iter_succ. simpl. lia.
Qed.

Lemma pos_iter_xO_val q k : Z.pos (Pos.iter xO q k) = Z.pos q * 2 ^ Z.pos k.
Proof.
  induction k as [|k IH] using Pos.peano_ind.
  - simpl. lia.
  - rewrite Pos.iter_succ, Pos2Z.inj_succ, Z.pow_succ_r by lia.
    change (Z.pos (Pos.iter xO q k)~0) with (2 * Z.pos (Pos.iter xO q k)). lia.
Qed.

Lemma mul_iter_xO q k : (q * Pos.iter xO 1 k)%positive = Pos.iter xO q k.
Proof.
  induction k as [|k IH] using Pos.peano_ind.
  - simpl. lia.
  - rewrite !Pos.iter_succ, Pos.mul_xO_r, IH. reflexivity.
Qed.

Lemma digits2_bounds q :
  2 ^ (Z.pos (digits2_pos q) - 1) <= Z.pos q < 2 ^ Z.pos (digits2_pos q).
Proof.
  induction q as [q IH|q IH|]; simpl digits2_pos.
  - rewrite Pos2Z.inj_succ, Pos2Z.inj_xI.
    replace (Z.succ (Z.pos (digits2_pos q)) - 1) with (Z.succ (Z.pos (digits2_pos q) - 1)) by lia.
    rewrite !Z.pow_succ_r by lia. lia.
  - rewrite Pos2Z.inj_succ. change (Z.pos q~0) with (2 * Z.pos q).
    replace (Z.succ (Z.pos (digits2_pos q)) - 1) with (Z.succ (Z.pos (digits2_pos q) - 1)) by lia.
    rewrite !Z.pow_succ_r by lia. lia.
  - simpl. lia.
Qed.

Lemma shr_iter_xO q k :
  Pos.iter shr_1 {| shr_m := Z.pos (Pos.iter xO q k); shr_r := false; shr_s := false |} k
  = {| shr_m := Z.pos q; shr_r := false; shr_s := false |}.
Proof.
  induction k as [|k IH] using Pos.peano_ind.
  - reflexivity.
  - rewrite Pos.iter_succ_r, Pos.iter_succ. simpl. exact IH.
Qed.

(** A mantissa already in canonical position is returned as it is. *)
Lemma binary_round_aux_canonical s q e :
  canonical_mantissa prec emax q e = true -> e <= emax - prec ->
  binary_round_aux prec emax s (Z.pos q) e loc_Exact = S754_finite s q e.
Proof.
  intros Hc He. unfold canonical_mantissa in Hc. apply Z.eqb_eq in Hc.
  unfold binary_round_aux, shr_fexp. cbn [Zdigits2]. rewrite Hc, Z.sub_diag.
  cbn [shr shr_record_of_loc shr_m loc_of_shr_record round_nearest_even Zdigits2].
  rewrite Hc, Z.sub_diag. cbn [shr shr_record_of_loc shr_m].
  apply Z.leb_le in He. rewrite He. reflexivity.
Qed.

(** Trailing zero bits are shifted out without rounding. *)
Lemma binary_round_aux_shifted s q e k :
  canonical_mantissa prec emax q e = true -> e <= emax - prec ->
  binary_round_aux prec emax s (Z.pos (Pos.iter xO q k)) (e - Z.pos k) loc_Exact
  = S754_finite s q e.
Proof.
  intros Hc He. generalize Hc; intros Hc'.
  unfold canonical_mantissa in Hc. apply Z.eqb_eq in Hc.
  unfold binary_round_aux at 1. unfold shr_fexp at 1. unfold Zdigits2.
  rewrite digits2_iter_xO.
  replace (Z.pos (digits2_pos q) + Z.pos k + (e - Z.pos k))
    with (Z.pos (digits2_pos q) + e) by lia.
  rewrite Hc. replace (e - (e - Z.pos k)) with (Z.pos k) by lia.
  unfold shr_record_of_loc, shr. rewrite iter_pos_iter, shr_iter_xO.
  replace (e - Z.pos k + Z.pos k) with e by lia.
  cbn [shr_m loc_of_shr_record round_nearest_even].
  generalize (binary_round_aux_canonical s q e Hc' He).
  unfold binary_round_aux. unfold shr_fexp at 1. cbn [Zdigits2].
  rewrite Hc, Z.sub_diag.
  cbn [shr shr_record_of_loc shr_m loc_of_shr_record round_nearest_even].
  trivial.
Qed.

(** An integer below [2^53] converts exactly: 53 mantissa bits, and the
    mantissa times [2^e] is the integer. *)
Lemma of_int_exact (H : Z) :
  0 < H < 2 ^ 53 ->
  exists q e, Float64.of_int H = S754_finite false q e
              /\ Z.pos (digits2_pos q) = 53
              /\ - 52 <= e <= 0
              /\ Z.pos q = H * 2 ^ (- e).
Proof.
  intros HH. destruct H as [|p|p]; try lia.
  unfold Float64.of_int, binary_normalize, binary_round.
  pose proof (digits2_bounds p) as Hd.
  set (d := Z.pos (digits2_pos p)) in *.
  assert (Hd53 : 1 <= d <= 53).
  { split; [subst d; lia|].
    destruct (Z_le_gt_dec d 53) as [|Hgt]; [assumption|exfalso].
    assert (2 ^ 53 <= 2 ^ (d - 1)) by (apply Z.pow_le_mono_r; lia). lia. }
  replace (d + 0) with d by lia.
  assert (Hf : fexp Float64.prec Float64.emax d = d - 53).
  { unfold fexp, SpecFloat.emin, Float64.prec, Float64.emax. lia. }
  rewrite Hf. unfold shl_align.
  destruct (d - 53 - 0) as [|k|k] eqn:Ek; try lia.
  - exists p, 0. assert (d = 53) by lia.
    split; [|split; [assumption | split; [lia | simpl; lia]]].
    apply binary_round_aux_canonical.
    + unfold canonical_mantissa. apply Z.eqb_eq. fold d.
      unfold fexp, SpecFloat.emin, prec, emax, Float64.prec, Float64.emax. lia.
    + unfold emax, prec, Float64.prec, Float64.emax. lia.
  - exists (Pos.iter xO p k), (d - 53).
    assert (Hk : Z.pos k = 53 - d) by lia.
    split; [|split; [rewrite digits2_iter_xO; fold d; lia | split; [lia|]]].
    + apply binary_round_aux_canonical.
      * unfold canonical_mantissa. apply Z.eqb_eq. rewrite digits2_iter_xO. fold d.
        unfold fexp, SpecFloat.emin, prec, emax, Float64.prec, Float64.emax. lia.
      * unfold emax, prec, Float64.prec, Float64.emax. lia.
    + rewrite pos_iter_xO_val. f_equal. f_equal. lia.
Qed.

(** Multiplying by [2^(-j)] only lowers the exponent. *)
Lemma mul_pow2neg s q e j :
  Z.pos (digits2_pos q) = 53 -> - 1074 <= e - j -> e - j <= 971 ->
  Float64.mul (S754_finite s q e) (Float64.pow2neg j) = S754_finite s q (e - j).
Proof.
  intros Hd Hlo Hhi. unfold Float64.mul, Float64.pow2neg, SFmul.
  rewrite mul_iter_xO, xorb_false_r.
  replace (e + (- 52 - j)) with (e - j - Z.pos 52) by lia.
  apply binary_round_aux_shifted.
  - unfold canonical_mantissa. apply Z.eqb_eq. rewrite Hd.
    unfold fexp, SpecFloat.emin, prec, emax, Float64.prec, Float64.emax. lia.
  - unfold emax, prec, Float64.emax, Float64.prec. lia.
Qed.

(** The integer part of [H * 2^(-j)] is the floor of [H / 2^j]. *)
Lemma trunc_mul_pow2neg (H j : Z) :
  0 < H < 2 ^ 53 -> 0 <= j <= 1000 ->
  Float64.trunc (Float64.mul (Float64.of_int H) (Float64.pow2neg j)) = Some (H / 2 ^ j).
Proof.
  intros HH Hj. destruct (of_int_exact H HH) as (q & e & -> & Hd & He & Hq).
  rewrite mul_pow2neg by lia. unfold Float64.trunc. f_equal.
  destruct (Z.leb_spec 0 (e - j)) as [Hpos|Hneg].
  - assert (e = 0) by lia. assert (j = 0) by lia. subst e j.
    rewrite Z.shiftl_0_r, Hq. simpl. rewrite Z.div_1_r. lia.
  - rewrite Z.shiftr_div_pow2 by lia. rewrite Hq.
    replace (- (e - j)) with (j + - e) by lia.
    rewrite Z.pow_add_r by lia.
    rewrite Z.div_mul_cancel_r; [reflexivity| |]; apply Z.pow_nonzero; lia.
Qed.

End FloatFacts.

(** The conversion discards the fraction: the result has the sign of the
    float and its magnitude is the largest integer not above the float's. *)
Lemma trunc_toward_zero s q e t :
  Float64.trunc (S754_finite s q e) = Some t ->
  (if s then t <= 0 else 0 <= t)
  /\ (0 <= e -> Z.abs t = Z.pos q * 2 ^ e)
  /\ (e < 0 -> Z.abs t * 2 ^ (- e) <= Z.pos q < (Z.abs t + 1) * 2 ^ (- e)).
Proof.
  unfold Float64.trunc. intros [= <-].
  destruct (Z.leb_spec 0 e) as [He|He].
  - rewrite Z.shiftl_mul_pow2 by lia.
    assert (0 < 2 ^ e) by (apply Z.pow_pos_nonneg; lia).
    repeat split; try lia; destruct s; nia.
  - rewrite Z.shiftr_div_pow2 by lia.
    assert (Hp : 0 < 2 ^ (- e)) by (apply Z.pow_pos_nonneg; lia).
    pose proof (Z.div_pos (Z.pos q) (2 ^ (- e)) ltac:(lia) Hp) as Hq.
    pose proof (Z.mul_div_le (Z.pos q) (2 ^ (- e)) Hp) as Hle.
    pose proof (Z.mul_succ_div_gt (Z.pos q) (2 ^ (- e)) Hp) as Hgt.
    repeat split; try lia; destruct s; try lia;
      rewrite ?Z.abs_opp, Z.abs_eq by lia; lia.
Qed.

Lemma to_int_trunc ovf bits f t :
  Float64.trunc f = Some t -> - 2 ^ (bits - 1) <= t < 2 ^ (bits - 1) ->
  Float64.to_int ovf bits f = t.
Proof.
  intros Ht Hr. unfold Float64.to_int. rewrite Ht.
  apply in_range_spec in Hr. rewrite Hr. reflexivity.
Qed.

Lemma to_int_mul_pow2neg ovf (H j : Z) :
  0 < H < 2 ^ 53 -> 0 <= j <= 1000 ->
  Float64.to_int ovf 64 (Float64.mul (Float64.of_int H) (Float64.pow2neg j)) = H / 2 ^ j.
Proof.
  intros HH Hj. apply to_int_trunc; [apply trunc_mul_pow2neg; assumption|].
  assert (0 < 2 ^ j) by (apply Z.pow_pos_nonneg; lia).
  pose proof (Z.div_pos H (2 ^ j) ltac:(lia) ltac:(lia)).
  pose proof (Z.div_le_upper_bound H (2 ^ j) H ltac:(lia) ltac:(nia)).
  lia.
Qed.

Lemma to_int_mul_zero ovf (H : Z) :
  0 < H < 2 ^ 53 ->
  Float64.to_int ovf 64 (Float64.mul (Float64.of_int H) (Float64.of_int 0)) = 0.
Proof.
  intros HH. destruct (of_int_exact H HH) as (q & e & -> & _).
  reflexivity.
Qed.

(** ** The vertical anchor *)

(** C1 (as stated, refuted): at height 4 and heightPercent 7/16 the product
    is 1.75; the program computes [y = 3] where rounding gives [y = 2].
    At height 3 and heightPercent 1/2 the program computes [y = 2], the
    rounded formula [y = 1]. *)
Lemma startY_is_not_rounded :
  startY indefinite 4 (Float64.dyadic 7 4) = 3
  /\ SpecLayout.y_rounded 4 (Float64.dyadic 7 4) = Some 2
  /\ startY indefinite 3 (Float64.dyadic 1 1) = 2
  /\ SpecLayout.y_rounded 3 (Float64.dyadic 1 1) = Some 1.
Proof. vm_compute. repeat split. Qed.

(** C1 (amended): for every image height [0 < H < 2^53] and every
    heightPercent [h], [y = H - t] where [t] is the float64 product
    [H * h] with its fraction discarded (truncation, not rounding); in
    particular [h = 0] gives [y = H], [h = 1] gives [y = 0] and [h = 0.5]
    gives [y = H - floor(H / 2)]: heightPercent is measured up from the
    bottom of the image. *)
Theorem startY_truncates ovf (H : Z) (HH : 0 < H < 2 ^ 53) :
  (forall h t,
      Float64.trunc (Float64.mul (Float64.of_int H) h) = Some t ->
      - 2 ^ 62 <= t < 2 ^ 62 ->
      startY ovf H h = H - t)
  /\ startY ovf H (Float64.of_int 0) = H
  /\ startY ovf H (Float64.of_int 1) = 0
  /\ startY ovf H (Float64.dyadic 1 1) = H - H / 2.
Proof.
  repeat split.
  - intros h t Ht Hr. unfold startY.
    rewrite (to_int_trunc ovf 64 _ t Ht) by lia. apply int_small. lia.
  - unfold startY. rewrite to_int_mul_zero by assumption.
    rewrite Z.sub_0_r. apply int_small. lia.
  - unfold startY. change (Float64.of_int 1) with (Float64.pow2neg 0).
    rewrite to_int_mul_pow2neg by lia. rewrite Z.pow_0_r, Z.div_1_r, Z.sub_diag.
    reflexivity.
  - unfold startY. change (Float64.dyadic 1 1) with (Float64.pow2neg 1).
    rewrite to_int_mul_pow2neg by lia. rewrite Z.pow_1_r.
    pose proof (Z.div_pos H 2 ltac:(lia) ltac:(lia)).
    pose proof (Z.div_le_upper_bound H 2 H ltac:(lia) ltac:(lia)).
    apply int_small. lia.
Qed.

Lemma startY_truncates_witness :
  0 < 1001 < 2 ^ 53 /\ startY indefinite 1001 (Float64.dyadic 1 1) = 501.
Proof.
  split; [lia|].
  exact (proj2 (proj2 (proj2 (startY_truncates indefinite 1001 ltac:(lia))))).
Defined.

(** ** The horizontal anchor *)

(** C2 (as stated, refuted): at width 4 and widthPercent 7/16 the product
    is 1.75; the program computes [x = 1] (and [x = 1 - 10/2] when
    centering a text 10 wide) where rounding gives 2 (and [2 - 10/2]). *)
Lemma startX_is_not_rounded :
  startX indefinite 4 (Float64.dyadic 7 4) false 10 = 1
  /\ SpecLayout.x_rounded 4 (Float64.dyadic 7 4) false 10 = Some 2
  /\ startX indefinite 4 (Float64.dyadic 7 4) true 10 = -4
  /\ SpecLayout.x_rounded 4 (Float64.dyadic 7 4) true 10 = Some (-3).
Proof. vm_compute. repeat split. Qed.

(** C2 (amended): for every image width [0 < W < 2^53], every
    widthPercent [w] and every measured text width [t], with [x0] the
    float64 product [W * w] with its fraction discarded (truncation, not
    rounding): the anchor is [x0] when the centering flag is false and
    [x0 - t/2] (integer division toward zero) when it is true; with
    [w = 0.5] that is [floor(W/2)] and [floor(W/2) - t/2]. *)
Theorem startX_truncates ovf (W t : Z) (HW : 0 < W < 2 ^ 53) (Ht : - 2 ^ 62 <= t < 2 ^ 62) :
  (forall w x0,
      Float64.trunc (Float64.mul (Float64.of_int W) w) = Some x0 ->
      - 2 ^ 62 <= x0 < 2 ^ 62 ->
      startX ovf W w false t = x0
      /\ startX ovf W w true t = x0 - Z.quot t 2)
  /\ startX ovf W (Float64.dyadic 1 1) false t = W / 2
  /\ startX ovf W (Float64.dyadic 1 1) true t = W / 2 - Z.quot t 2.
Proof.
  assert (Hq : - 2 ^ 62 <= Z.quot t 2 < 2 ^ 62).
  { pose proof (Z.quot_rem' t 2). pose proof (Z.rem_bound_abs t 2 ltac:(lia)). lia. }
  assert (Hd : GoInt.div t 2 = Z.quot t 2).
  { unfold GoInt.div. apply int_small. lia. }
  assert (Hgen : forall w x0,
             Float64.trunc (Float64.mul (Float64.of_int W) w) = Some x0 ->
             - 2 ^ 62 <= x0 < 2 ^ 62 ->
             startX ovf W w false t = x0
             /\ startX ovf W w true t = x0 - Z.quot t 2).
  { intros w x0 Hx Hr. unfold startX.
    rewrite (to_int_trunc ovf 64 _ x0 Hx) by lia. rewrite Hd.
    split; [reflexivity | apply int_small; lia]. }
  split; [exact Hgen|].
  apply Hgen.
  - change (Float64.dyadic 1 1) with (Float64.pow2neg 1).
    rewrite trunc_mul_pow2neg by lia. rewrite Z.pow_1_r. reflexivity.
  - pose proof (Z.div_pos W 2 ltac:(lia) ltac:(lia)).
    pose proof (Z.div_le_upper_bound W 2 W ltac:(lia) ltac:(lia)). lia.
Qed.

Lemma startX_truncates_witness :
  0 < 1001 < 2 ^ 53 /\ - 2 ^ 62 <= 301 < 2 ^ 62
  /\ startX indefinite 1001 (Float64.dyadic 1 1) true 301 = 350.
Proof.
  split; [lia | split; [lia|]].
  exact (proj2 (proj2 (startX_truncates indefinite 1001 301 ltac:(lia) ltac:(lia)))).
Defined.

(** ** Bit operations of the UTF-8 decoder *)

Lemma land_le_r x y : 0 <= y -> Z.land x y <= y.
Proof.
  intros Hy.
  assert (E : Z.lor (Z.land x y) (Z.ldiff y x) = y).
  { apply Z.bits_inj'. intros n Hn.
    rewrite Z.lor_spec, Z.land_spec, Z.ldiff_spec.
    destruct (Z.testbit x n), (Z.testbit y n); reflexivity. }
  assert (E0 : Z.land (Z.land x y) (Z.ldiff y x) = 0).
  { apply Z.bits_inj'. intros n Hn.
    rewrite !Z.land_spec, Z.ldiff_spec, Z.bits_0.
    destruct (Z.testbit x n), (Z.testbit y n); reflexivity. }
  pose proof (Z.add_lor_land (Z.land x y) (Z.ldiff y x)) as Hadd.
  rewrite E, E0 in Hadd.
  assert (0 <= Z.ldiff y x) by (apply Z.ldiff_nonneg; lia).
  lia.
Qed.

Lemma lor_ge_l x y : 0 <= y -> x <= Z.lor x y.
Proof.
  intros Hy. pose proof (Z.add_lor_land x y). pose proof (land_le_r x y Hy). lia.
Qed.

Lemma lor_ge_r x y : 0 <= x -> y <= Z.lor x y.
Proof. intros Hx. rewrite Z.lor_comm. apply lor_ge_l. exact Hx. Qed.

Lemma byte_range c : 0 <= Utf8.byte c < 256.
Proof.
  unfold Utf8.byte. pose proof (N_ascii_bounded c). lia.
Qed.

Lemma between_spec lo hi b : Utf8.between lo hi b = true <-> lo <= b <= hi.
Proof. unfold Utf8.between. rewrite andb_true_iff, !Z.leb_le. tauto. Qed.

Lemma between_false lo hi b : Utf8.between lo hi b = false <-> (b < lo \/ hi < b).
Proof.
  unfold Utf8.between. rewrite andb_false_iff, !Z.leb_gt. tauto.
Qed.

(** A leading byte of a multi-byte sequence, with what it implies. *)
Lemma first_spec b0 sz lo hi :
  Utf8.first b0 = Some (sz, lo, hi) ->
  128 <= lo /\ hi <= 191 /\
  ((sz = 2%nat /\ 194 <= b0 <= 223)
   \/ (sz = 3%nat /\ ((b0 = 224 /\ lo = 160) \/ 225 <= b0 <= 239))
   \/ (sz = 4%nat /\ ((b0 = 240 /\ lo = 144) \/ 241 <= b0 <= 244))).
Proof.
  unfold Utf8.first.
  repeat match goal with
         | |- context [if Utf8.between ?l ?h ?b then _ else _] =>
             let E := fresh "E" in
             destruct (Utf8.between l h b) eqn:E;
             [apply between_spec in E | apply between_false in E]
         | |- context [if ?b =? ?k then _ else _] =>
             destruct (Z.eqb_spec b k)
         end; intros [= <- <- <-]; lia.
Qed.

Lemma shiftl_land_lower b n k v :
  0 <= n -> 0 <= k -> v <= b mod 2 ^ n -> v * 2 ^ k <= Z.shiftl (Z.land b (Z.ones n)) k.
Proof.
  intros Hn Hk Hv. rewrite Z.land_ones, Z.shiftl_mul_pow2 by lia.
  apply Z.mul_le_mono_nonneg_r; [apply Z.pow_nonneg; lia | exact Hv].
Qed.

Lemma shiftl_land_nonneg b n k : 0 <= n -> 0 <= k -> 0 <= Z.shiftl (Z.land b (Z.ones n)) k.
Proof.
  intros Hn Hk. rewrite Z.land_ones, Z.shiftl_mul_pow2 by lia.
  apply Z.mul_nonneg_nonneg; [apply Z.mod_pos_bound | ]; apply Z.pow_pos_nonneg || apply Z.pow_nonneg; lia.
Qed.

Lemma land_ones_nonneg b n : 0 <= n -> 0 <= Z.land b (Z.ones n).
Proof.
  intros Hn. rewrite Z.land_ones by lia. apply Z.mod_pos_bound. apply Z.pow_pos_nonneg; lia.
Qed.

(** The decoder either reads one ASCII byte as itself, or consumes between
    one and four bytes, all of them at least 128, and yields a rune that
    is at least 128. *)
Lemma decode_cases c s' :
  let s := String c s' in
  let r := fst (Utf8.DecodeRuneInString s) in
  let w := snd (Utf8.DecodeRuneInString s) in
  (Utf8.byte c < 128 /\ r = Utf8.byte c /\ w = 1%nat)
  \/ (128 <= Utf8.byte c /\ 128 <= r /\ (1 <= w)%nat
      /\ all_bytes high_byte (Utf8.take w s) = true
      /\ String.length (Utf8.take w s) = w).
Proof.
  cbv zeta. unfold Utf8.DecodeRuneInString, Utf8.RuneSelf, Utf8.RuneError.
  destruct (Z.ltb_spec (Utf8.byte c) 128) as [Hlt|Hge]; [left; simpl; auto|right].
  assert (Hc : high_byte c = true) by (unfold high_byte; apply Z.leb_le; exact Hge).
  assert (Herr : 128 <= Utf8.byte c /\ 128 <= 65533 /\ (1 <= 1)%nat
                 /\ all_bytes high_byte (Utf8.take 1 (String c s')) = true
                 /\ String.length (Utf8.take 1 (String c s')) = 1%nat).
  { repeat split; try lia. simpl. destruct s'; simpl; rewrite Hc; reflexivity. }
  destruct (Utf8.first (Utf8.byte c)) as [[[sz lo] hi]|] eqn:F; [|exact Herr].
  apply first_spec in F. destruct F as (Hlo & Hhi & Hsz).
  destruct s' as [|c1 s2]; [exact Herr|].
  destruct (Utf8.between lo hi (Utf8.byte c1)) eqn:B1; [|exact Herr].
  apply between_spec in B1. cbn [negb].
  assert (Hc1 : high_byte c1 = true) by (unfold high_byte; apply Z.leb_le; lia).
  change 31 with (Z.ones 5). change 63 with (Z.ones 6).
  change 15 with (Z.ones 4). change 7 with (Z.ones 3).
  destruct (Nat.leb_spec sz 2) as [S2|S2].
  { cbn [fst snd]. repeat split; try lia.
    - assert (194 <= Utf8.byte c <= 223) by lia.
      pose proof (shiftl_land_lower (Utf8.byte c) 5 6 2 ltac:(lia) ltac:(lia)) as L.
      pose proof (lor_ge_l (Z.shiftl (Z.land (Utf8.byte c) (Z.ones 5)) 6)
                           (Z.land (Utf8.byte c1) (Z.ones 6))
                           (land_ones_nonneg _ 6 ltac:(lia))) as L'.
      assert (2 <= Utf8.byte c mod 2 ^ 5).
      { change (2 ^ 5) with 32. Z.div_mod_to_equations. lia. }
      specialize (L ltac:(assumption)). change (2 * 2 ^ 6) with 128 in L. lia.
    - simpl. rewrite Hc, Hc1. reflexivity. }
  destruct s2 as [|c2 s3]; [exact Herr|].
  unfold Utf8.cont.
  destruct (Utf8.between 128 191 (Utf8.byte c2)) eqn:B2; [|exact Herr].
  apply between_spec in B2. cbn [negb].
  assert (Hc2 : high_byte c2 = true) by (unfold high_byte; apply Z.leb_le; lia).
  destruct (Nat.leb_spec sz 3) as [S3|S3].
  { cbn [fst snd]. repeat split; try lia.
    - pose proof (shiftl_land_nonneg (Utf8.byte c) 4 12 ltac:(lia) ltac:(lia)) as N0.
      pose proof (shiftl_land_nonneg (Utf8.byte c1) 6 6 ltac:(lia) ltac:(lia)) as N1.
      pose proof (land_ones_nonneg (Utf8.byte c2) 6 ltac:(lia)) as N2.
      set (a0 := Z.shiftl (Z.land (Utf8.byte c) (Z.ones 4)) 12) in *.
      set (a1 := Z.shiftl (Z.land (Utf8.byte c1) (Z.ones 6)) 6) in *.
      pose proof (lor_ge_l (Z.lor a0 a1) _ N2) as L2.
      pose proof (lor_ge_l a0 a1 N1) as La.
      pose proof (lor_ge_r a0 a1 N0) as Lb.
      assert (Hcase : (Utf8.byte c = 224 /\ lo = 160) \/ 225 <= Utf8.byte c <= 239) by lia.
      destruct Hcase as [[E0 E1]|E0].
      + pose proof (shiftl_land_lower (Utf8.byte c1) 6 6 32 ltac:(lia) ltac:(lia)) as L.
        assert (32 <= Utf8.byte c1 mod 2 ^ 6).
        { change (2 ^ 6) with 64. Z.div_mod_to_equations. lia. }
        specialize (L ltac:(assumption)). change (32 * 2 ^ 6) with 2048 in L.
        fold a1 in L. lia.
      + pose proof (shiftl_land_lower (Utf8.byte c) 4 12 1 ltac:(lia) ltac:(lia)) as L.
        assert (1 <= Utf8.byte c mod 2 ^ 4).
        { change (2 ^ 4) with 16. Z.div_mod_to_equations. lia. }
        specialize (L ltac:(assumption)). change (1 * 2 ^ 12) with 4096 in L.
        fold a0 in L. lia.
    - simpl. rewrite Hc, Hc1, Hc2. reflexivity. }
  destruct s3 as [|c3 s4]; [exact Herr|].
  destruct (Utf8.between 128 191 (Utf8.byte c3)) eqn:B3; [|exact Herr].
  apply between_spec in B3. cbn [negb].
  assert (Hc3 : high_byte c3 = true) by (unfold high_byte; apply Z.leb_le; lia).
  cbn [fst snd]. repeat split; try lia.
  - pose proof (shiftl_land_nonneg (Utf8.byte c) 3 18 ltac:(lia) ltac:(lia)) as N0.
    pose proof (shiftl_land_nonneg (Utf8.byte c1) 6 12 ltac:(lia) ltac:(lia)) as N1.
    pose proof (shiftl_land_nonneg (Utf8.byte c2) 6 6 ltac:(lia) ltac:(lia)) as N2.
    pose proof (land_ones_nonneg (Utf8.byte c3) 6 ltac:(lia)) as N3.
    set (a0 := Z.shiftl (Z.land (Utf8.byte c) (Z.ones 3)) 18) in *.
    set (a1 := Z.shiftl (Z.land (Utf8.byte c1) (Z.ones 6)) 12) in *.
    set (a2 := Z.shiftl (Z.land (Utf8.byte c2) (Z.ones 6)) 6) in *.
    pose proof (lor_ge_l (Z.lor (Z.lor a0 a1) a2) _ N3) as L3.
    pose proof (lor_ge_l (Z.lor a0 a1) _ N2) as L2.
    pose proof (lor_ge_l a0 a1 N1) as La.
    pose proof (lor_ge_r a0 a1 N0) as Lb.
    assert (Hcase : (Utf8.byte c = 240 /\ lo = 144) \/ 241 <= Utf8.byte c <= 244) by lia.
    destruct Hcase as [[E0 E1]|E0].
    + pose proof (shiftl_land_lower (Utf8.byte c1) 6 12 16 ltac:(lia) ltac:(lia)) as L.
      assert (16 <= Utf8.byte c1 mod 2 ^ 6).
      { change (2 ^ 6) with 64. Z.div_mod_to_equations. lia. }
      specialize (L ltac:(assumption)). change (16 * 2 ^ 12) with 65536 in L.
      fold a1 in L. lia.
    + pose proof (shiftl_land_lower (Utf8.byte c) 3 18 1 ltac:(lia) ltac:(lia)) as L.
      assert (1 <= Utf8.byte c mod 2 ^ 3).
      { change (2 ^ 3) with 8. Z.div_mod_to_equations. lia. }
      specialize (L ltac:(assumption)). change (1 * 2 ^ 18) with 262144 in L.
      fold a0 in L. lia.
  - simpl. rewrite Hc, Hc1, Hc2, Hc3. reflexivity.
Qed.

(** ** Walking a string rune by rune *)

Lemma chunks_from_drop k s : Utf8.chunks_from k s = Utf8.chunks (Utf8.drop k s).
Proof.
  revert k. induction s as [|c s IH]; intros [|k]; try reflexivity.
  simpl. apply IH.
Qed.

Lemma chunks_cons c s' :
  let s := String c s' in
  Utf8.chunks s
  = (fst (Utf8.DecodeRuneInString s), Utf8.take (snd (Utf8.DecodeRuneInString s)) s)
      :: Utf8.chunks (Utf8.drop (snd (Utf8.DecodeRuneInString s)) s).
Proof.
  cbv zeta. pose proof (decode_cases c s') as Hd. cbv zeta in Hd.
  unfold Utf8.chunks at 1. cbn [Utf8.chunks_from].
  destruct (Utf8.DecodeRuneInString (String c s')) as [r w]. cbn [fst snd] in *.
  rewrite chunks_from_drop.
  destruct w as [|w]; [exfalso; destruct Hd as [(_ & _ & ?)|(_ & _ & ? & _)]; lia|].
  reflexivity.
Qed.

Lemma take_drop n s : Utf8.take n s +:+ Utf8.drop n s = s.
Proof.
  revert s. induction n as [|n IH]; intros [|c s]; try reflexivity.
  cbn [Utf8.take Utf8.drop]. change (String c (Utf8.take n s +:+ Utf8.drop n s) = String c s).
  f_equal. apply IH.
Qed.

Lemma length_drop n s : String.length (Utf8.drop n s) = (String.length s - n)%nat.
Proof.
  revert s. induction n as [|n IH]; intros [|c s]; simpl; try lia. apply IH.
Qed.

Lemma filter_bytes_app P a b :
  filter_bytes P (a +:+ b) = filter_bytes P a +:+ filter_bytes P b.
Proof.
  induction a as [|c a IH]; simpl; [reflexivity|].
  destruct (P c); simpl; rewrite IH; reflexivity.
Qed.

Lemma high_not_word c : high_byte c = true -> word_byte c = false.
Proof.
  unfold high_byte, word_byte, Utf8.between. intros H. apply Z.leb_le in H.
  repeat match goal with
         | |- context [?a <=? ?b] => destruct (Z.leb_spec a b)
         end;
    destruct (Z.eqb_spec (Utf8.byte c) 95); try reflexivity; lia.
Qed.

Lemma filter_high t : all_bytes high_byte t = true -> filter_bytes word_byte t = EmptyString.
Proof.
  induction t as [|c t IH]; simpl; [reflexivity|].
  intros H. apply andb_true_iff in H. destruct H as [Hc Ht].
  rewrite (high_not_word c Hc). apply IH, Ht.
Qed.

(** On a rune decoded from one ASCII byte the class [[^a-zA-Z0-9_]]
    matches exactly when the byte is not a word byte; it matches every
    rune from 128 on. *)
Lemma class_match_ascii c :
  Regexp.class_match {| Regexp.negated := true;
                        Regexp.ranges := [(97, 122); (65, 90); (48, 57); (95, 95)] |}
                     (Utf8.byte c) = negb (word_byte c).
Proof.
  unfold Regexp.class_match, word_byte. cbn [Regexp.negated Regexp.ranges existsb fst snd].
  rewrite orb_false_r. f_equal. rewrite !orb_assoc. f_equal.
  unfold Utf8.between. destruct (Z.eqb_spec (Utf8.byte c) 95) as [->|Hne]; [reflexivity|].
  apply andb_false_iff. lia.
Qed.

Lemma class_match_high r :
  128 <= r ->
  Regexp.class_match {| Regexp.negated := true;
                        Regexp.ranges := [(97, 122); (65, 90); (48, 57); (95, 95)] |} r
  = true.
Proof.
  intros Hr. unfold Regexp.class_match. cbn [Regexp.negated Regexp.ranges existsb fst snd].
  unfold Utf8.between.
  replace (r <=? 122) with false by (symmetry; apply Z.leb_gt; lia).
  replace (r <=? 90) with false by (symmetry; apply Z.leb_gt; lia).
  replace (r <=? 57) with false by (symmetry; apply Z.leb_gt; lia).
  replace (r <=? 95) with false by (symmetry; apply Z.leb_gt; lia).
  rewrite !andb_false_r. reflexivity.
Qed.

(** Deleting the runs of non-word runes keeps exactly the word bytes. *)
Lemma replace_runs_filter (n : nat) :
  forall s inMatch, (String.length s <= n)%nat ->
    Regexp.replace_runs
      {| Regexp.negated := true;
         Regexp.ranges := [(97, 122); (65, 90); (48, 57); (95, 95)] |}
      EmptyString inMatch (Utf8.chunks s)
    = filter_bytes word_byte s.
Proof.
  induction n as [|n IH]; intros [|c s'] inMatch Hlen; try reflexivity.
  - simpl in Hlen. lia.
  - rewrite chunks_cons. cbn [Regexp.replace_runs].
    pose proof (decode_cases c s') as Hd. cbv zeta in Hd.
    destruct (Utf8.DecodeRuneInString (String c s')) as [r w]. cbn [fst snd] in *.
    destruct Hd as [(Hlt & -> & ->)|(Hge & Hr & Hw & Hall & Hlenw)].
    + rewrite class_match_ascii. cbn [Utf8.drop Utf8.take filter_bytes].
      simpl in Hlen.
      destruct (word_byte c); cbn [negb].
      * rewrite IH by lia. reflexivity.
      * rewrite IH by lia. destruct inMatch; reflexivity.
    + rewrite class_match_high by exact Hr.
      rewrite IH.
      * rewrite <- (take_drop w (String c s')) at 2.
        rewrite filter_bytes_app, (filter_high _ Hall).
        destruct inMatch; reflexivity.
      * rewrite length_drop. simpl in *. lia.
Qed.

Lemma replace_space s :
  Strings.ReplaceAll s " " "_" = map_bytes space_to_underscore s.
Proof.
  unfold Strings.ReplaceAll. induction s as [|c s IH]; [reflexivity|].
  cbn [Strings.replace_from Strings.hasPrefix map_bytes String.length Nat.pred].
  unfold space_to_underscore at 1. rewrite Ascii.eqb_sym.
  destruct (Ascii.eqb c " "); simpl; rewrite IH; reflexivity.
Qed.

Lemma sanitizeFilename_filter s :
  sanitizeFilename s = filter_bytes word_byte (map_bytes space_to_underscore s).
Proof.
  unfold sanitizeFilename, reg, Regexp.ReplaceAllString.
  rewrite replace_space. apply (replace_runs_filter _ _ false (le_n _)).
Qed.

Lemma all_bytes_filter P s : all_bytes P (filter_bytes P s) = true.
Proof.
  induction s as [|c s IH]; [reflexivity|]. simpl.
  destruct (P c) eqn:E; [simpl; rewrite E, IH; reflexivity | exact IH].
Qed.

Lemma filter_bytes_id P s : all_bytes P s = true -> filter_bytes P s = s.
Proof.
  induction s as [|c s IH]; [reflexivity|]. simpl. intros H.
  apply andb_true_iff in H. destruct H as [Hc Hs]. rewrite Hc, (IH Hs). reflexivity.
Qed.

Lemma word_byte_not_space c : word_byte c = true -> space_to_underscore c = c.
Proof.
  unfold space_to_underscore. destruct (Ascii.eqb_spec c " ") as [->|]; [|reflexivity].
  vm_compute. discriminate.
Qed.

Lemma map_space_id s :
  all_bytes word_byte s = true -> map_bytes space_to_underscore s = s.
Proof.
  induction s as [|c s IH]; [reflexivity|]. simpl. intros H.
  apply andb_true_iff in H. destruct H as [Hc Hs].
  rewrite (word_byte_not_space c Hc), (IH Hs). reflexivity.
Qed.

(** ** sanitizeFilename *)

(** C3: for every input string, [sanitizeFilename] turns every space into
    an underscore and then removes every character outside
    [[A-Za-z0-9_]], so the result consists of ASCII letters, digits and
    underscores only; [sanitize("Bob O'Brien") = "Bob_OBrien"]. *)
Theorem sanitizeFilename_spec (s : string) :
  sanitizeFilename s = filter_bytes word_byte (map_bytes space_to_underscore s)
  /\ all_bytes word_byte (sanitizeFilename s) = true
  /\ sanitizeFilename "Bob O'Brien" = "Bob_OBrien".
Proof.
  split; [apply sanitizeFilename_filter|]. split; [|reflexivity].
  rewrite sanitizeFilename_filter. apply all_bytes_filter.
Qed.

(** C4: sanitization is idempotent. *)
Theorem sanitizeFilename_idempotent (s : string) :
  sanitizeFilename (sanitizeFilename s) = sanitizeFilename s.
Proof.
  rewrite (sanitizeFilename_filter (sanitizeFilename s)).
  pose proof (sanitizeFilename_filter s) as E.
  assert (Hall : all_bytes word_byte (sanitizeFilename s) = true)
    by (rewrite E; apply all_bytes_filter).
  rewrite (map_space_id _ Hall). apply filter_bytes_id, Hall.
Qed.

(** ** readNamesFromCSV *)

Lemma fold_left_app_concat {A} (l : list (list A)) (acc : list A) :
  fold_left (fun names record => (names ++ record)%list) l acc = (acc ++ concat l)%list.
Proof.
  revert acc. induction l as [|r l IH]; intros acc; simpl.
  - rewrite app_nil_r. reflexivity.
  - rewrite IH, app_assoc. reflexivity.
Qed.

(** C8: when the source parses into [records], the names are all fields of
    all records, flattened in source order; a source without records
    yields the empty sequence and no error.  The file system is left as
    it was. *)
Theorem readNamesFromCSV_flattens env path w content records
        (Hfile : fs w !! path = Some (File content))
        (Hcsv : csv_ReadAll env content = Ok records) :
  snd (readNamesFromCSV env path w) = Val (Ok (concat records))
  /\ fs (fst (readNamesFromCSV env path w)) = fs w
  /\ (records = [] -> snd (readNamesFromCSV env path w) = Val (Ok [])).
Proof.
  assert (E : readNamesFromCSV env path w
              = ({| fs := fs w; heap := heap w; next := next w;
                    trace := Open path :: trace w |}, Val (Ok (concat records)))).
  { unfold readNamesFromCSV, os_Open, emit, get, modify.
    unfold mbind, M_bind, mret, M_ret. cbn. rewrite Hfile.
    unfold csv_records. cbn. rewrite Hcsv.
    rewrite fold_left_app_concat. reflexivity. }
  rewrite E. cbn. repeat split. intros ->. reflexivity.
Qed.

Lemma readNamesFromCSV_flattens_witness :
  snd (readNamesFromCSV Demo.env "names.csv" Demo.world)
  = Val (Ok ["Alice Jones"; "Bob Smith"; "Charlie Brown"]).
Proof.
  exact (proj1 (readNamesFromCSV_flattens Demo.env "names.csv" Demo.world Demo.names_csv
                  [["Alice Jones"]; ["Bob Smith"]; ["Charlie Brown"]]
                  ltac:(vm_compute; reflexivity) ltac:(vm_compute; reflexivity))).
Defined.

(** ** getTextWidth *)

(** The width only depends on the size through its conversion to an
    integer: sizes with the same integer part measure alike. *)
Lemma getTextWidth_integer_part ovf text font size size' :
  Int26_6_of_float ovf size = Int26_6_of_float ovf size' ->
  getTextWidth ovf text font size = getTextWidth ovf text font size'.
Proof. intros E. unfold getTextWidth. rewrite E. reflexivity. Qed.

(** C5 (the code at the failing input): a two-em dash in a font of 1000
    units per em, at 10.5 points.  The program measures 20, the same as
    at 10 points; the advance the drawing context uses at 10.5 points and
    72 DPI is 1344/64 = 21 pixels. *)
Theorem getTextWidth_drops_fraction :
  getTextWidth indefinite Demo.two_em_dash Demo.font (Float64.dyadic 21 1) = 20
  /\ getTextWidth indefinite Demo.two_em_dash Demo.font (Float64.of_int 10) = 20
  /\ Utf8.runes Demo.two_em_dash = [11834]
  /\ HMetric_AdvanceWidth Demo.font
       (Freetype.recalc indefinite (Float64.dyadic 21 1) (Float64.of_int 72))
       (Index Demo.font 11834) = 21 * 64.
Proof. vm_compute. repeat split. Qed.

(** ** Lowercasing *)

Lemma chr_byte c : Utf8.chr (Utf8.byte c) = c.
Proof.
  unfold Utf8.chr. pose proof (byte_range c) as Hr.
  rewrite Z.mod_small by exact Hr. unfold Utf8.byte.
  rewrite N2Z.id. apply ascii_N_embedding.
Qed.

Lemma byte_inj a b : Utf8.byte a = Utf8.byte b -> a = b.
Proof. intros E. rewrite <- (chr_byte a), <- (chr_byte b), E. reflexivity. Qed.

Lemma same_letter_spec a b :
  same_letter a b = true <->
  (Utf8.byte a = Utf8.byte b
   \/ (65 <= Utf8.byte a <= 90 /\ Utf8.byte b = Utf8.byte a + 32)
   \/ (65 <= Utf8.byte b <= 90 /\ Utf8.byte a = Utf8.byte b + 32)).
Proof.
  unfold same_letter. rewrite !orb_true_iff, !andb_true_iff, !between_spec, !Z.eqb_eq.
  tauto.
Qed.

Lemma same_letters_refl s : same_letters s s = true.
Proof.
  induction s as [|c s IH]; [reflexivity|]. simpl. rewrite IH, andb_true_r.
  apply same_letter_spec. left. reflexivity.
Qed.

Lemma same_letters_drop n s t :
  same_letters s t = true -> same_letters (Utf8.drop n s) (Utf8.drop n t) = true.
Proof.
  revert s t. induction n as [|n IH]; intros [|a s] [|b t] H; simpl in *;
    try assumption; try discriminate.
  apply andb_true_iff in H. apply IH, H.
Qed.

Lemma same_letters_length s t :
  same_letters s t = true -> String.length s = String.length t.
Proof.
  revert t. induction s as [|a s IH]; intros [|b t] H; simpl in *; try discriminate.
  - reflexivity.
  - apply andb_true_iff in H. f_equal. apply IH, H.
Qed.

(** A byte from 128 on has no other case. *)
Lemma same_letter_high a b lo hi :
  same_letter a b = true -> 128 <= lo ->
  Utf8.between lo hi (Utf8.byte a) = Utf8.between lo hi (Utf8.byte b)
  /\ (Utf8.between lo hi (Utf8.byte a) = true -> a = b).
Proof.
  intros H Hlo. apply same_letter_spec in H.
  destruct (Utf8.between lo hi (Utf8.byte a)) eqn:Ea;
    [apply between_spec in Ea | apply between_false in Ea].
  - assert (Utf8.byte a = Utf8.byte b) as E by lia.
    split; [|intros _; apply byte_inj, E].
    symmetry. apply between_spec. lia.
  - split; [|discriminate]. symmetry. apply between_false. lia.
Qed.

Lemma lowerBytes_same s t :
  same_letters s t = true -> Strings.lowerBytes s = Strings.lowerBytes t.
Proof.
  revert t. induction s as [|a s IH]; intros [|b t] H; simpl in *; try discriminate.
  - reflexivity.
  - apply andb_true_iff in H. destruct H as [Hab Hst].
    rewrite (IH t Hst). f_equal. apply same_letter_spec in Hab.
    destruct (Utf8.between 65 90 (Utf8.byte a)) eqn:Ea;
      destruct (Utf8.between 65 90 (Utf8.byte b)) eqn:Eb;
      try apply between_spec in Ea; try apply between_false in Ea;
      try apply between_spec in Eb; try apply between_false in Eb.
    + f_equal. lia.
    + assert (E : Utf8.byte b = Utf8.byte a + 32) by lia.
      rewrite <- E. apply chr_byte.
    + assert (E : Utf8.byte a = Utf8.byte b + 32) by lia.
      rewrite <- E. symmetry. apply chr_byte.
    + apply byte_inj. lia.
Qed.

Lemma isASCII_same s t :
  same_letters s t = true -> Strings.isASCII s = Strings.isASCII t.
Proof.
  revert t. induction s as [|a s IH]; intros [|b t] H; simpl in *; try discriminate.
  - reflexivity.
  - apply andb_true_iff in H. destruct H as [Hab Hst].
    rewrite (IH t Hst). f_equal. apply same_letter_spec in Hab.
    unfold Utf8.RuneSelf.
    destruct (Z.ltb_spec (Utf8.byte a) 128), (Z.ltb_spec (Utf8.byte b) 128);
      try reflexivity; lia.
Qed.

Lemma lowerBytes_no_upper s : Strings.hasUpper s = false -> Strings.lowerBytes s = s.
Proof.
  induction s as [|c s IH]; [reflexivity|]. simpl. intros H.
  apply orb_false_iff in H. destruct H as [Hc Hs]. rewrite Hc, (IH Hs). reflexivity.
Qed.

(** On ASCII-only strings [ToLower] is the byte-wise lowering. *)
Lemma ToLower_ascii table s :
  Strings.isASCII s = true -> Strings.ToLower table s = Strings.lowerBytes s.
Proof.
  intros H. unfold Strings.ToLower. rewrite H.
  destruct (Strings.hasUpper s) eqn:E; [reflexivity|].
  symmetry. apply lowerBytes_no_upper, E.
Qed.

Lemma unicode_ToLower_same table a b :
  same_letter a b = true -> Utf8.byte a < 128 ->
  Utf8.byte b < 128
  /\ Strings.unicode_ToLower table (Utf8.byte a) = Strings.unicode_ToLower table (Utf8.byte b).
Proof.
  intros H Ha. apply same_letter_spec in H. split; [lia|].
  unfold Strings.unicode_ToLower.
  replace (Utf8.byte a <=? 127) with true by (symmetry; apply Z.leb_le; lia).
  replace (Utf8.byte b <=? 127) with true by (symmetry; apply Z.leb_le; lia).
  destruct (Utf8.between 65 90 (Utf8.byte a)) eqn:Ea;
    destruct (Utf8.between 65 90 (Utf8.byte b)) eqn:Eb;
    try apply between_spec in Ea; try apply between_false in Ea;
    try apply between_spec in Eb; try apply between_false in Eb; lia.
Qed.

(** After a leading byte from 128 on, the decoder reads the same rune from
    two strings that differ in letter case only. *)
Lemma decode_same a s t :
  same_letters s t = true -> 128 <= Utf8.byte a ->
  Utf8.DecodeRuneInString (String a s) = Utf8.DecodeRuneInString (String a t).
Proof.
  intros H Ha. unfold Utf8.DecodeRuneInString, Utf8.RuneSelf, Utf8.cont.
  destruct (Z.ltb_spec (Utf8.byte a) 128); [lia|].
  destruct (Utf8.first (Utf8.byte a)) as [[[sz lo] hi]|] eqn:F; [|reflexivity].
  apply first_spec in F. destruct F as (Hlo & _ & _).
  destruct s as [|c1 s], t as [|d1 t]; simpl in H; try discriminate; [reflexivity|].
  apply andb_true_iff in H. destruct H as [H1 H].
  destruct (same_letter_high c1 d1 lo hi H1 Hlo) as [E1 I1]. rewrite <- E1.
  destruct (Utf8.between lo hi (Utf8.byte c1)); [|reflexivity].
  rewrite <- (I1 eq_refl). cbn [negb].
  destruct (sz <=? 2)%nat; [reflexivity|].
  destruct s as [|c2 s], t as [|d2 t]; simpl in H; try discriminate; [reflexivity|].
  apply andb_true_iff in H. destruct H as [H2 H].
  destruct (same_letter_high c2 d2 128 191 H2 ltac:(lia)) as [E2 I2]. rewrite <- E2.
  destruct (Utf8.between 128 191 (Utf8.byte c2)); [|reflexivity].
  rewrite <- (I2 eq_refl). cbn [negb].
  destruct (sz <=? 3)%nat; [reflexivity|].
  destruct s as [|c3 s], t as [|d3 t]; simpl in H; try discriminate; [reflexivity|].
  apply andb_true_iff in H. destruct H as [H3 H].
  destruct (same_letter_high c3 d3 128 191 H3 ltac:(lia)) as [E3 I3]. rewrite <- E3.
  destruct (Utf8.between 128 191 (Utf8.byte c3)); [|reflexivity].
  rewrite <- (I3 eq_refl). reflexivity.
Qed.

(** The lowered runes of two strings that differ in letter case only. *)
Lemma lowered_runes_same table (n : nat) :
  forall s t, (String.length s <= n)%nat -> same_letters s t = true ->
    map (fun ch => Strings.unicode_ToLower table (fst ch)) (Utf8.chunks s)
    = map (fun ch => Strings.unicode_ToLower table (fst ch)) (Utf8.chunks t).
Proof.
  induction n as [|n IH]; intros [|a s] [|b t] Hlen H; simpl in H, Hlen;
    try discriminate; try reflexivity; try lia.
  apply andb_true_iff in H. destruct H as [Hab Hst].
  rewrite !chunks_cons. cbn [map fst].
  pose proof (decode_cases a s) as Hd. cbv zeta in Hd.
  destruct Hd as [(Hlt & Hr & Hw)|(Hge & Hr & Hw & Hall & Hlenw)].
  - destruct (unicode_ToLower_same table a b Hab Hlt) as [Hb Hlow].
    pose proof (decode_cases b t) as Hd'. cbv zeta in Hd'.
    destruct Hd' as [(_ & Hr' & Hw')|(Hge' & _)]; [|lia].
    rewrite Hr, Hw, Hr', Hw', Hlow. cbn [Utf8.drop]. f_equal.
    apply IH; [lia | exact Hst].
  - assert (a = b) as <-.
    { apply same_letter_spec in Hab. apply byte_inj. lia. }
    rewrite <- (decode_same a s t Hst Hge). f_equal.
    apply IH.
    + rewrite length_drop. cbn [String.length]. lia.
    + apply same_letters_drop. cbn [same_letters]. rewrite Hab, Hst. reflexivity.
Qed.

Lemma Map_lowered mapping s :
  Strings.Map mapping s
  = fold_right (fun r acc => if 0 <=? r then Utf8.EncodeRune r +:+ acc else acc)
               EmptyString
               (map (fun ch => mapping (fst ch)) (Utf8.chunks s)).
Proof.
  unfold Strings.Map. induction (Utf8.chunks s) as [|ch l IH]; [reflexivity|].
  cbn [fold_right map]. rewrite IH. reflexivity.
Qed.

Lemma ToLower_same table s t :
  same_letters s t = true -> Strings.ToLower table s = Strings.ToLower table t.
Proof.
  intros H. destruct (Strings.isASCII s) eqn:E.
  - rewrite !ToLower_ascii by (rewrite <- ?(isASCII_same s t H); exact E).
    apply lowerBytes_same, H.
  - unfold Strings.ToLower. rewrite <- (isASCII_same s t H), E.
    rewrite !Map_lowered. f_equal. apply (lowered_runes_same table _ s t (le_n _) H).
Qed.

(** ** Lowercasing rune by rune *)

(** The runes of an ASCII-only string are its bytes, one by one. *)
Lemma chunks_ascii_cons c s :
  Utf8.byte c < 128 ->
  Utf8.chunks (String c s) = (Utf8.byte c, String c EmptyString) :: Utf8.chunks s.
Proof.
  intros Hc. rewrite chunks_cons.
  assert (E : Utf8.DecodeRuneInString (String c s) = (Utf8.byte c, 1%nat)).
  { unfold Utf8.DecodeRuneInString, Utf8.RuneSelf.
    destruct (Z.ltb_spec (Utf8.byte c) 128); [reflexivity | lia]. }
  rewrite E. reflexivity.
Qed.

(** On an ASCII-only string, mapping [unicode.ToLower] over the runes is
    the byte-wise lowering of the fast path. *)
Lemma Map_ascii table s :
  Strings.isASCII s = true ->
  Strings.Map (Strings.unicode_ToLower table) s = Strings.lowerBytes s.
Proof.
  induction s as [|c s IH]; intros H; [reflexivity|].
  cbn [Strings.isASCII] in H. apply andb_true_iff in H. destruct H as [Hc Hs].
  unfold Utf8.RuneSelf in Hc. apply Z.ltb_lt in Hc.
  pose proof (byte_range c) as Hr.
  unfold Strings.Map in *. rewrite (chunks_ascii_cons c s Hc).
  cbn [fold_right fst Strings.lowerBytes]. rewrite (IH Hs).
  unfold Strings.unicode_ToLower.
  replace (Utf8.byte c <=? 127) with true by (symmetry; apply Z.leb_le; lia).
  destruct (Utf8.between 65 90 (Utf8.byte c)) eqn:Eu.
  - apply between_spec in Eu.
    replace (0 <=? Utf8.byte c + 32) with true by (symmetry; apply Z.leb_le; lia).
    unfold Utf8.EncodeRune.
    replace ((0 <=? Utf8.byte c + 32) && (Utf8.byte c + 32 <=? 127)) with true
      by (symmetry; apply andb_true_iff; split; apply Z.leb_le; lia).
    reflexivity.
  - replace (0 <=? Utf8.byte c) with true by (symmetry; apply Z.leb_le; lia).
    unfold Utf8.EncodeRune.
    replace ((0 <=? Utf8.byte c) && (Utf8.byte c <=? 127)) with true
      by (symmetry; apply andb_true_iff; split; apply Z.leb_le; lia).
    rewrite chr_byte. reflexivity.
Qed.

(** [ToLower] of any string is the encoding of its lowered runes: the
    ASCII fast path and the general path agree. *)
Lemma ToLower_runes table s :
  Strings.ToLower table s
  = fold_right (fun r acc => if 0 <=? r then Utf8.EncodeRune r +:+ acc else acc)
               EmptyString
               (map (Strings.unicode_ToLower table) (Utf8.runes s)).
Proof.
  assert (E : Strings.ToLower table s = Strings.Map (Strings.unicode_ToLower table) s).
  { destruct (Strings.isASCII s) eqn:Ha.
    - rewrite (ToLower_ascii table s Ha), (Map_ascii table s Ha). reflexivity.
    - unfold Strings.ToLower. rewrite Ha. reflexivity. }
  rewrite E, Map_lowered. unfold Utf8.runes. rewrite map_map. reflexivity.
Qed.

Lemma ToLower_same_case table s t :
  same_case table s t -> Strings.ToLower table s = Strings.ToLower table t.
Proof.
  intros H. rewrite !ToLower_runes. f_equal. unfold same_case in H.
  induction H as [|r1 r2 l1 l2 Hr _ IH]; [reflexivity|].
  cbn [map]. rewrite Hr, IH. reflexivity.
Qed.

(** An ASCII string without upper-case letters is its own lower-case form. *)
Lemma ToLower_lower_ascii table k :
  Strings.isASCII k = true -> Strings.hasUpper k = false -> Strings.ToLower table k = k.
Proof.
  intros Ha Hu. rewrite (ToLower_ascii table k Ha). apply lowerBytes_no_upper, Hu.
Qed.

(** ** Color names *)

(** C10: the color name is lowercased before the lookup.  Resolution
    succeeds exactly when the lowercase form is a key of the table; every
    casing of a lower-case ASCII key [k] resolves to the table's entry at
    [k]; two names that differ only in the case of ASCII letters resolve
    alike, and so do two names that differ only in letter case in
    general (rune by rune the same lower-case form). *)
Theorem lookupColor_case_insensitive (env : Env) :
  (forall s, lookupColor env s
             = colornames_Map env !! Strings.ToLower (unicode_lower env) s)
  /\ (forall s, is_Some (lookupColor env s)
                <-> Strings.ToLower (unicode_lower env) s ∈ dom (colornames_Map env))
  /\ (forall s t, same_letters s t = true -> lookupColor env s = lookupColor env t)
  /\ lookupColor Demo.env "BlAcK" = Some Demo.black
  /\ (forall k s, Strings.isASCII k = true -> Strings.hasUpper k = false ->
                  same_letters s k = true ->
                  lookupColor env s = colornames_Map env !! k)
  /\ (forall s t, same_case (unicode_lower env) s t ->
                  lookupColor env s = lookupColor env t)
  /\ lookupColor Demo.env "RED" = Some Demo.red
  /\ lookupColor Demo.env "Blurple" = None
  /\ lookupColor kelvin_env blac_kelvin = Some Demo.black.
Proof.
  split; [reflexivity|]. split; [|split; [|split; [|split; [|split]]]].
  - intros s. unfold lookupColor. symmetry. apply elem_of_dom.
  - intros s t H. unfold lookupColor. rewrite (ToLower_same _ s t H). reflexivity.
  - vm_compute. reflexivity.
  - intros k s Ha Hu H. unfold lookupColor.
    rewrite (ToLower_same _ s k H), (ToLower_lower_ascii _ k Ha Hu). reflexivity.
  - intros s t H. unfold lookupColor. rewrite (ToLower_same_case _ s t H). reflexivity.
  - vm_compute. repeat split.
Qed.

Lemma lookupColor_case_insensitive_witness :
  lookupColor Demo.env "rEd" = colornames_Map Demo.env !! "red"
  /\ lookupColor kelvin_env blac_kelvin = lookupColor kelvin_env "BLACK".
Proof.
  pose proof (lookupColor_case_insensitive Demo.env) as (_ & _ & _ & _ & Hkey & _).
  pose proof (lookupColor_case_insensitive kelvin_env) as (_ & _ & _ & _ & _ & Hcase & _).
  split.
  - exact (Hkey "red" "rEd" eq_refl eq_refl eq_refl).
  - apply Hcase. unfold same_case. repeat constructor.
Defined.

(** ** An unknown color name *)

Lemma encoded_quiet new t :
  forallb quiet new = true -> encoded_rev (new ++ t) = encoded_rev t.
Proof.
  induction new as [|e new IH]; [reflexivity|]. simpl. intros H.
  apply andb_true_iff in H. destruct H as [He Hn].
  destruct e; try discriminate; apply IH, Hn.
Qed.

(** C9: if the configured color name does not resolve, the run stops
    before anything is read, rendered or written: the file system and the
    image heap are as before, nothing was handed to the encoder, and the
    only events are file-existence checks and console lines. *)
Theorem unknown_color_stops_early env flags w
        (Hcolor : lookupColor env (srcColorName flags) = None) :
  let w' := fst (main env flags w) in
  fs w' = fs w /\ heap w' = heap w /\ next w' = next w
  /\ (exists new, trace w' = (new ++ trace w)%list /\ forallb quiet new = true)
  /\ encoded w' = encoded w
  /\ (exists e, snd (main env flags w) = Stop e).
Proof.
  cbv zeta.
  assert (H : fs (fst (main env flags w)) = fs w
              /\ heap (fst (main env flags w)) = heap w
              /\ next (fst (main env flags w)) = next w
              /\ (exists new, trace (fst (main env flags w)) = (new ++ trace w)%list
                              /\ forallb quiet new = true)
              /\ (exists e, snd (main env flags w) = Stop e)).
  { unfold main.
    destruct (String.eqb (csvFilePath flags) "" || String.eqb (imagePath flags) ""
              || String.eqb (fontPath flags) "")%bool.
    - unfold emit, modify, stop, mbind, M_bind. cbn.
      repeat split; eauto.
      eexists [_; _; _]. split; reflexivity.
    - rewrite Hcolor.
      unfold notExist, fatalf, emit, get, modify, stop, mbind, M_bind, mret, M_ret. cbn.
      repeat match goal with
             | |- context [bool_decide (fs w !! ?p = None)] =>
                 destruct (bool_decide (fs w !! p = None)); cbn
             end;
        repeat split; eauto;
        try (eexists [_; _]; split; reflexivity);
        try (eexists [_; _; _]; split; reflexivity);
        try (eexists [_; _; _; _]; split; reflexivity);
        try (eexists [_; _; _; _; _]; split; reflexivity);
        try (eexists [_; _; _; _; _; _]; split; reflexivity). }
  destruct H as (Hfs & Hheap & Hnext & (new & Htr & Hq) & Hstop).
  repeat split; try assumption.
  - exists new. split; assumption.
  - unfold encoded. rewrite Htr, (encoded_quiet new _ Hq). reflexivity.
Qed.

Lemma unknown_color_stops_early_witness :
  fs (fst (main Demo.env (Demo.flags "blurple") Demo.world)) = fs Demo.world.
Proof.
  exact (proj1 (unknown_color_stops_early Demo.env (Demo.flags "blurple") Demo.world
                  ltac:(vm_compute; reflexivity))).
Defined.

(** ** Rectangles *)

Lemma In_spec x y r :
  Image.In x y r = true <->
  Image.X (Image.Min r) <= x < Image.X (Image.Max r)
  /\ Image.Y (Image.Min r) <= y < Image.Y (Image.Max r).
Proof.
  unfold Image.In. rewrite !andb_true_iff, !Z.leb_le, !Z.ltb_lt. tauto.
Qed.

Lemma Empty_spec r :
  Image.Empty r = true <->
  Image.X (Image.Max r) <= Image.X (Image.Min r)
  \/ Image.Y (Image.Max r) <= Image.Y (Image.Min r).
Proof. unfold Image.Empty. rewrite orb_true_iff, !Z.leb_le. tauto. Qed.

Lemma In_not_Empty x y r : Image.In x y r = true -> Image.Empty r = false.
Proof.
  intros H. apply In_spec in H. apply not_true_is_false. rewrite Empty_spec. lia.
Qed.

Lemma In_ZR x y : Image.In x y Image.ZR = false.
Proof.
  apply not_true_is_false. rewrite In_spec. simpl. lia.
Qed.

Lemma In_Intersect x y r s :
  Image.In x y (Image.Intersect r s) = Image.In x y r && Image.In x y s.
Proof.
  apply eq_true_iff_eq. rewrite andb_true_iff, !In_spec.
  unfold Image.Intersect.
  match goal with |- context [if Image.Empty ?r' then _ else _] =>
    destruct (Image.Empty r') eqn:E end.
  - apply Empty_spec in E. cbn in *. lia.
  - apply not_true_iff_false in E. rewrite Empty_spec in E. cbn in *. lia.
Qed.

Lemma In_Add x y r p :
  Image.In x y (Image.Add r p) = Image.In (x - Image.X p) (y - Image.Y p) r.
Proof.
  apply eq_true_iff_eq. rewrite !In_spec. cbn. lia.
Qed.

(** ** The copy of the background *)

Lemma NewRGBA_Bounds r : Image.Bounds (Image.NewRGBA r) = r.
Proof. reflexivity. Qed.

Lemma Draw_Bounds dst r src sp :
  Image.Bounds (Image.Draw dst r src sp) = Image.Bounds dst.
Proof.
  unfold Image.Draw. destruct dst; try reflexivity.
  match goal with |- context [if ?b then _ else _] => destruct b end; reflexivity.
Qed.

Lemma copy_of_Bounds bg : Image.Bounds (copy_of bg) = Image.Bounds bg.
Proof. unfold copy_of. rewrite Draw_Bounds. reflexivity. Qed.

Lemma copy_of_RGBA bg : exists pix, copy_of bg = Image.RGBAImg (Image.Bounds bg) pix.
Proof.
  unfold copy_of, Image.Draw, Image.NewRGBA.
  match goal with |- context [if ?b then _ else _] => destruct b end; eauto.
Qed.

(** Inside the bounds of a background whose origin is [(0, 0)], the copy
    holds the background pixel composed over a transparent one. *)
Lemma copy_of_pixel bg x y :
  Image.Min (Image.Bounds bg) = Image.ZP ->
  Image.In x y (Image.Bounds bg) = true ->
  exists pix, copy_of bg = Image.RGBAImg (Image.Bounds bg) pix
              /\ pix x y = Image.over bg x y Image.transparent.
Proof.
  intros Hmin Hin. unfold copy_of, Image.Draw, Image.NewRGBA.
  cbn [Image.Bounds]. rewrite Hmin. cbn [Image.X Image.Y Image.ZP].
  set (off := {| Image.X := 0 - 0; Image.Y := 0 - 0 |}).
  set (r' := Image.Intersect _ _).
  assert (Hr : Image.In x y r' = true).
  { subst r'. rewrite !In_Intersect, In_Add, Hin. subst off. cbn.
    rewrite !Z.sub_0_r. exact Hin. }
  rewrite (In_not_Empty x y r' Hr).
  eexists. split; [reflexivity|]. cbn beta. rewrite Hr.
  subst off. cbn. rewrite !Z.sub_0_r. reflexivity.
Qed.

Lemma shr8 c : 0 <= c <= 255 -> GoInt.uint8 (Z.shiftr (c * 257) 8) = c.
Proof.
  intros Hc. unfold GoInt.uint8. rewrite Z.shiftr_div_pow2 by lia.
  change (2 ^ 8) with 256.
  replace (c * 257) with (c + c * 256) by lia.
  rewrite Z.div_add by lia. rewrite (Z.div_small c 256) by lia.
  apply Z.mod_small. lia.
Qed.

(** A background pixel whose color fits 8 bits per channel is copied as
    that color. *)
Lemma over_transparent bg x y c :
  Image.In x y (Image.Bounds bg) = true ->
  0 <= Image.R c <= 255 -> 0 <= Image.G c <= 255 ->
  0 <= Image.B c <= 255 -> 0 <= Image.A c <= 255 ->
  Image.At bg x y = Image.map_quad (fun v => v * 257) c ->
  Image.over bg x y Image.transparent = c.
Proof.
  intros Hin HR HG HB HA. unfold Image.At. rewrite Hin.
  destruct c as [cr cg cb ca]. cbn [Image.R Image.G Image.B Image.A] in *.
  unfold Image.over, Image.transparent, Image.m, Image.map_quad.
  destruct bg as [rect pix|rect pix|rect at16]; cbn [Image.R Image.G Image.B Image.A].
  - unfold Image.RGBA_RGBA, Image.map_quad. intros [= ER EG EB EA].
    rewrite ER, EG, EB, EA. cbn [Z.mul]. rewrite !Z.div_0_l by lia.
    rewrite !Z.add_0_l, !shr8 by lia. reflexivity.
  - unfold Image.NRGBA_RGBA. intros [= ER EG EB EA].
    assert (Hc : forall v, v * (Image.A (pix x y) * 257) / 255
                           = v * 257 * Image.A (pix x y) / 255).
    { intros v. f_equal. lia. }
    rewrite !Hc, ER, EG, EB, EA. cbn [Z.mul]. rewrite !Z.div_0_l by lia.
    rewrite !Z.add_0_l, !shr8 by lia. reflexivity.
  - intros ->. cbn [Image.R Image.G Image.B Image.A Z.mul].
    rewrite !Z.add_0_l, !Z.div_mul by lia. rewrite !shr8 by lia. reflexivity.
Qed.

(** ** Drawing the empty string *)

Lemma runes_empty : Utf8.runes EmptyString = [].
Proof. reflexivity. Qed.

Lemma draw_string_empty env c p rect pix :
  Freetype.draw_string env c EmptyString p (Image.RGBAImg rect pix)
  = (Image.RGBAImg rect pix, Ok p).
Proof. reflexivity. Qed.

(** C6 (as stated, refuted): a 1 x 1 background whose pixel is the
    translucent, not premultiplied color (200, 100, 50, alpha 1).  After
    rendering the empty name the pixel reads (0, 0, 0, 257) where the
    background reads (201, 100, 50, 257). *)
Lemma empty_name_not_identical :
  Image.At (fst (render Demo.env (Demo.flags "black") Demo.black
                        Demo.translucent Demo.font EmptyString)) 0 0
  = {| Image.R := 0; Image.G := 0; Image.B := 0; Image.A := 257 |}
  /\ Image.At Demo.translucent 0 0
     = {| Image.R := 201; Image.G := 100; Image.B := 50; Image.A := 257 |}.
Proof. vm_compute. split; reflexivity. Qed.

(** C6 (amended): rendering the empty string draws no glyph: the output
    raster is exactly the copy of the background taken at the start of the
    iteration, with the bounds of the background and no error.  For a
    background with origin (0, 0) every pixel whose color fits 8 bits per
    channel (as in every opaque 8-bit image) equals the corresponding
    background pixel. *)
Theorem render_empty_name env flags color bg font :
  let out := render env flags color bg font EmptyString in
  fst out = copy_of bg
  /\ (exists p, snd out = Ok p)
  /\ Image.Bounds (fst out) = Image.Bounds bg
  /\ (Image.Min (Image.Bounds bg) = Image.ZP ->
      forall x y, Image.In x y (Image.Bounds bg) = true ->
                  eight_bit (Image.At bg x y) ->
                  Image.At (fst out) x y = Image.At bg x y).
Proof.
  cbv zeta. unfold render.
  destruct (copy_of_RGBA bg) as [pix0 E0].
  assert (E : forall c p, Freetype.draw_string env c EmptyString p (copy_of bg)
                          = (copy_of bg, Ok p)).
  { intros c p. rewrite E0. apply draw_string_empty. }
  rewrite E. cbn [fst snd]. split; [reflexivity|]. split; [eauto|].
  split; [apply copy_of_Bounds|].
  intros Hmin x y Hin (c & HR & HG & HB & HA & Hc).
  destruct (copy_of_pixel bg x y Hmin Hin) as (pix & Ecopy & Epix).
  rewrite Ecopy. unfold Image.At at 1. cbn [Image.Bounds]. rewrite Hin, Epix.
  rewrite (over_transparent bg x y c Hin HR HG HB HA Hc), Hc. reflexivity.
Qed.

Lemma render_empty_name_witness :
  Image.At (fst (render Demo.env (Demo.flags "black") Demo.black
                        Demo.background Demo.font EmptyString)) 1 1
  = Image.At Demo.background 1 1.
Proof.
  refine (proj2 (proj2 (proj2 (render_empty_name Demo.env (Demo.flags "black") Demo.black
                                 Demo.background Demo.font)))
                eq_refl 1 1 eq_refl _).
  exists Demo.white. cbn. repeat split; lia.
Defined.

(** The copy of a background with origin (0, 0) shows the background's
    color wherever that color fits 8 bits per channel. *)
Lemma copy_of_At bg x y :
  Image.Min (Image.Bounds bg) = Image.ZP ->
  Image.In x y (Image.Bounds bg) = true ->
  eight_bit (Image.At bg x y) ->
  Image.At (copy_of bg) x y = Image.At bg x y.
Proof.
  intros Hmin Hin (c & HR & HG & HB & HA & Hc).
  destruct (copy_of_pixel bg x y Hmin Hin) as (pix & Ecopy & Epix).
  rewrite Ecopy. unfold Image.At at 1. cbn [Image.Bounds]. rewrite Hin, Epix.
  rewrite (over_transparent bg x y c Hin HR HG HB HA Hc), Hc. reflexivity.
Qed.

(** ** The batch loop *)

Lemma encoded_rev_app t1 t2 :
  encoded_rev (t1 ++ t2) = (encoded_rev t1 ++ encoded_rev t2)%list.
Proof.
  induction t1 as [|e t1 IH]; [reflexivity|].
  destruct e; simpl; rewrite ?IH; reflexivity.
Qed.

Lemma draw_runes_ctx env c c' rs prev p pix :
  c_f c = c_f c' -> c_scale c = c_scale c' -> c_clip c = c_clip c' -> c_src c = c_src c' ->
  Freetype.draw_runes env c rs prev p pix = Freetype.draw_runes env c' rs prev p pix.
Proof.
  intros Hf Hs Hc Hr. revert prev p pix.
  induction rs as [|r rs IH]; intros prev p pix; [reflexivity|].
  cbn [Freetype.draw_runes]. rewrite Hf, Hs, Hc, Hr.
  destruct (glyph_draw env _ _ _ _ _ _ _) as [[adv pix']|err]; [apply IH | reflexivity].
Qed.

(** The drawing does not depend on the address in the context. *)
Lemma draw_string_ctx env c c' s p dst :
  c_f c = c_f c' -> c_scale c = c_scale c' -> c_clip c = c_clip c' -> c_src c = c_src c' ->
  Freetype.draw_string env c s p dst = Freetype.draw_string env c' s p dst.
Proof.
  intros Hf Hs Hc Hr. unfold Freetype.draw_string. destruct dst; try reflexivity.
  rewrite (draw_runes_ctx env c c' _ _ _ _ Hf Hs Hc Hr). reflexivity.
Qed.

Lemma draw_string_Bounds env c s p dst :
  Image.Bounds (fst (Freetype.draw_string env c s p dst)) = Image.Bounds dst.
Proof.
  unfold Freetype.draw_string. destruct dst; try reflexivity.
  destruct (Freetype.draw_runes _ _ _ _ _ _). reflexivity.
Qed.

Lemma render_Bounds env flags color bg font name :
  Image.Bounds (fst (render env flags color bg font name)) = Image.Bounds bg.
Proof. unfold render. cbv zeta. rewrite draw_string_Bounds. apply copy_of_Bounds. Qed.

Lemma draws_fresh_weaken a b new : (a <= b)%nat -> draws_fresh b new -> draws_fresh a new.
Proof.
  intros Hab H. unfold draws_fresh in *. eapply Forall_impl; [exact H|].
  cbv beta. intros e He l Hl. specialize (He l Hl). lia.
Qed.

Section Batch.

Variables (env : Env) (flags : Flags) (color : Image.quad) (orig : nat) (font : Font).
Variable bg : Image.Image.

Local Arguments Image.Draw : simpl never.
Local Arguments Image.NewRGBA : simpl never.
Local Arguments Image.Bounds : simpl never.
Local Arguments Freetype.draw_string : simpl never.
Local Arguments Freetype.recalc : simpl never.
Local Arguments Freetype.Pt : simpl never.
Local Arguments startX : simpl never.
Local Arguments startY : simpl never.
Local Arguments getTextWidth : simpl never.
Local Arguments sanitizeFilename : simpl never.
Local Arguments Float64.of_int : simpl never.

Local Ltac leaf :=
  split; [reflexivity|];
  split; [repeat constructor; cbn; intros l' [= <-]; lia|];
  cbn; split; [first [left; reflexivity | right; split; [reflexivity | discriminate]]
              | first [reflexivity | discriminate]].

(** One iteration: the background is untouched, the drawing goes to a new
    address, and what reaches the encoder is the certificate of the name. *)
Lemma loop_body_step name w :
  heap w !! orig = Some bg -> (orig < next w)%nat ->
  let res := loop_body env flags color orig font
                       (Image.Dx (Image.Bounds bg)) (Image.Dy (Image.Bounds bg)) name w in
  heap (fst res) !! orig = Some bg
  /\ (next w <= next (fst res))%nat
  /\ exists new, trace (fst res) = (new ++ trace w)%list
                 /\ draws_fresh (next w) new
                 /\ (encoded_rev new = [certificate env flags color bg font name]
                     \/ (encoded_rev new = [] /\ snd res <> Val tt))
                 /\ (snd res = Val tt ->
                     encoded_rev new = [certificate env flags color bg font name]).
Proof.
  intros Hbg Hfresh. cbv zeta. unfold draws_fresh, certificate.
  unfold loop_body, NewRGBA_at, Draw_at, DrawString_at, Encode_at, os_Create, fatalf,
    alloc, load, store, set_file, emit, get, modify, stop, mbind, M_bind, mret, M_ret.
  cbn. rewrite Hbg. cbn.
  repeat (first [rewrite lookup_insert_eq | rewrite lookup_insert_ne by lia | rewrite Hbg]; cbn).
  change (Image.Draw (Image.NewRGBA (Image.Bounds bg))
                     (Image.Bounds (Image.NewRGBA (Image.Bounds bg))) bg Image.ZP)
    with (copy_of bg).
  unfold output_path, render. cbv zeta.
  match goal with
  | |- context [Freetype.draw_string env ?c name ?p (copy_of bg)] =>
      match c with
      | context [next w] =>
          rewrite (draw_string_ctx env c
                     {| c_f := font; c_fontSize := fontSize flags;
                        c_dpi := Float64.of_int 72; c_src := color;
                        c_clip := Image.Bounds (copy_of bg); c_dst := 0%nat;
                        c_scale := Freetype.recalc (conv_overflow env) (fontSize flags)
                                                   (Float64.of_int 72) |}
                     name p (copy_of bg) eq_refl eq_refl eq_refl eq_refl);
          set (pt := p) in *
      end
  end.
  destruct (Freetype.draw_string env _ name pt (copy_of bg)) as [img r] eqn:Eds.
  cbn.
  destruct r as [p|err]; cbn;
    [destruct (fs w !! filepath_Join env (outputPath flags) (sanitizeFilename name +:+ ".png"))
       as [[content|]|]; cbn;
     try (destruct (creatable env _); cbn;
          [rewrite ?lookup_insert_eq; cbn; destruct (png_Encode env img); cbn|])|];
    (split; [rewrite !lookup_insert_ne by lia; exact Hbg|]);
    (split; [lia|]);
    first [eexists [_; _; _; _]; solve [leaf]
          | eexists [_; _; _; _; _]; solve [leaf]
          | eexists [_; _; _; _; _; _]; solve [leaf]].
Qed.

Lemma forEach_cons {A} (a : A) l (f : A -> M unit) w :
  forEach (a :: l) f w
  = match f a w with
    | (w', Val _) => forEach l f w'
    | (w', Stop e) => (w', Stop e)
    end.
Proof. reflexivity. Qed.

Lemma forEach_loop names :
  forall w, heap w !! orig = Some bg -> (orig < next w)%nat ->
  let res := forEach names
               (loop_body env flags color orig font
                          (Image.Dx (Image.Bounds bg)) (Image.Dy (Image.Bounds bg))) w in
  heap (fst res) !! orig = Some bg
  /\ exists new k,
      trace (fst res) = (new ++ trace w)%list
      /\ draws_fresh (next w) new
      /\ (k <= length names)%nat
      /\ rev (encoded_rev new) = map (certificate env flags color bg font) (take k names)
      /\ (snd res = Val tt -> k = length names).
Proof.
  induction names as [|name names IH]; intros w Hbg Hfresh; cbv zeta.
  - cbn. split; [exact Hbg|]. exists [], 0%nat. repeat split; try reflexivity; constructor.
  - rewrite forEach_cons.
    pose proof (loop_body_step name w Hbg Hfresh) as Hstep. cbv zeta in Hstep.
    destruct (loop_body env flags color orig font _ _ name w) as [w1 [[]|e]];
      cbn [fst snd] in Hstep;
      destruct Hstep as (Hbg1 & Hnext & new1 & Htr1 & Hfr1 & Henc1 & Hval1).
    + specialize (IH w1 Hbg1 ltac:(lia)). cbv zeta in IH.
      destruct IH as (Hbg2 & new2 & k & Htr2 & Hfr2 & Hk & Henc2 & Hval2).
      split; [exact Hbg2|].
      exists (new2 ++ new1)%list, (S k). repeat split.
      * rewrite Htr2, Htr1, app_assoc. reflexivity.
      * apply Forall_app. split; [|exact Hfr1].
        apply (draws_fresh_weaken _ (next w1)); assumption.
      * cbn. lia.
      * rewrite encoded_rev_app, rev_app_distr, Henc2, (Hval1 eq_refl). reflexivity.
      * intros Hr. cbn. f_equal. apply Hval2, Hr.
    + cbn [fst snd]. split; [exact Hbg1|].
      destruct Henc1 as [Henc1|[Henc1 _]].
      * exists new1, 1%nat. repeat split; try assumption.
        -- cbn. lia.
        -- rewrite Henc1. reflexivity.
        -- discriminate.
      * exists new1, 0%nat. repeat split; try assumption.
        -- cbn. lia.
        -- rewrite Henc1. reflexivity.
        -- discriminate.
Qed.

(** C7: throughout a batch over any sequence of names the background is
    never mutated: it is in the heap at the end as at the start, every
    drawing goes to an address allocated during the run, the rasters
    handed to the encoder are the certificates of the names processed,
    each computed from the background and its own name alone, and each
    has the bounds of the background.  A certificate is the text drawn on
    the copy of the background (it is that copy when the name is empty),
    and the copy holds the pixels of the background: at every point of a
    background with origin (0, 0) the background pixel composed over a
    transparent one, which is the background's color whenever that color
    fits 8 bits per channel. *)
Theorem batch_keeps_background names w
        (Hbg : heap w !! orig = Some bg) (Hfresh : (orig < next w)%nat) :
  let res := forEach names
               (loop_body env flags color orig font
                          (Image.Dx (Image.Bounds bg)) (Image.Dy (Image.Bounds bg))) w in
  heap (fst res) !! orig = Some bg
  /\ (exists k, (k <= length names)%nat
                /\ encoded (fst res)
                   = (encoded w ++ map (certificate env flags color bg font) (take k names))%list
                /\ (snd res = Val tt -> k = length names))
  /\ (forall name, Image.Bounds (snd (certificate env flags color bg font name))
                   = Image.Bounds bg)
  /\ (exists new, trace (fst res) = (new ++ trace w)%list /\ draws_fresh (next w) new)
  /\ (forall name, exists c p,
         snd (certificate env flags color bg font name)
         = fst (Freetype.draw_string env c name p (copy_of bg)))
  /\ snd (certificate env flags color bg font EmptyString) = copy_of bg
  /\ (Image.Min (Image.Bounds bg) = Image.ZP ->
      forall x y, Image.In x y (Image.Bounds bg) = true ->
        (exists pix, copy_of bg = Image.RGBAImg (Image.Bounds bg) pix
                     /\ pix x y = Image.over bg x y Image.transparent)
        /\ (eight_bit (Image.At bg x y) ->
            Image.At (copy_of bg) x y = Image.At bg x y)).
Proof.
  cbv zeta. pose proof (forEach_loop names w Hbg Hfresh) as H. cbv zeta in H.
  destruct H as (Hbg' & new & k & Htr & Hfr & Hk & Henc & Hval).
  split; [exact Hbg'|]. split; [|split; [|split; [|split; [|split]]]].
  - exists k. split; [exact Hk|]. split; [|exact Hval].
    unfold encoded. rewrite Htr, encoded_rev_app, rev_app_distr, Henc. reflexivity.
  - intros name. apply render_Bounds.
  - exists new. split; assumption.
  - intros name. unfold certificate, render. cbv zeta. cbn [snd]. eauto.
  - unfold certificate, render. cbv zeta. cbn [snd].
    destruct (copy_of_RGBA bg) as [pix0 E0]. rewrite E0.
    rewrite draw_string_empty. reflexivity.
  - intros Hmin x y Hin.
    destruct (copy_of_pixel bg x y Hmin Hin) as (pix & Ecopy & Epix).
    split; [exists pix; split; assumption|].
    apply copy_of_At; assumption.
Qed.

End Batch.

Lemma batch_keeps_background_witness :
  heap (fst (forEach ["Alice Jones"; "Bob Smith"]
               (loop_body Demo.env (Demo.flags "black") Demo.black 0%nat Demo.font
                          (Image.Dx (Image.Bounds Demo.background))
                          (Image.Dy (Image.Bounds Demo.background)))
               Demo.loaded)) !! 0%nat
  = Some Demo.background
  /\ Image.At (copy_of Demo.background) 0 1 = Image.At Demo.background 0 1.
Proof.
  assert (Hbg : heap Demo.loaded !! 0%nat = Some Demo.background)
    by (vm_compute; reflexivity).
  assert (Hfresh : (0 < next Demo.loaded)%nat) by (cbn; lia).
  pose proof (batch_keeps_background Demo.env (Demo.flags "black") Demo.black 0%nat
                Demo.font Demo.background ["Alice Jones"; "Bob Smith"]
                Demo.loaded Hbg Hfresh) as H.
  cbv zeta in H. destruct H as (Hheap & _ & _ & _ & _ & _ & Hpix).
  split; [exact Hheap|].
  apply (Hpix eq_refl 0 1 eq_refl).
  exists Demo.white. cbn. repeat split; lia.
Defined.

(** Once the inputs are validated and loaded, [main] is the loop over the
    names, started with the decoded background at a fresh address; the
    statement above then applies with [orig := next w]. *)
Lemma main_runs_batch env flags w csv png ttf out records color bg font
      (Hreq : (String.eqb (csvFilePath flags) "" || String.eqb (imagePath flags) ""
               || String.eqb (fontPath flags) "")%bool = false)
      (Hcsv : fs w !! csvFilePath flags = Some (File csv))
      (Hpng : fs w !! imagePath flags = Some (File png))
      (Httf : fs w !! fontPath flags = Some (File ttf))
      (Hout : fs w !! outputPath flags = Some out)
      (Hcolor : lookupColor env (srcColorName flags) = Some color)
      (Hrecords : csv_ReadAll env csv = Ok records)
      (Hbg : image_Decode env png = Ok bg)
      (Hfont : freetype_ParseFont env ttf = Ok font) :
  exists new,
    forallb (fun e => match draws_on e with Some _ => false | None => true end) new = true
    /\ main env flags w
       = forEach (concat records)
                 (loop_body env flags color (next w) font
                            (Image.Dx (Image.Bounds bg)) (Image.Dy (Image.Bounds bg)))
                 {| fs := fs w; heap := <[next w := bg]> (heap w);
                    next := S (next w); trace := (new ++ trace w)%list |}.
Proof.
  eexists [_; _; _; _; _; _; _; _; _]. split; [|unfold main; rewrite Hreq, Hcolor].
  2: { unfold readNamesFromCSV, csv_records, notExist, os_Open, alloc, fatalf, emit, get,
         modify, stop, mbind, M_bind, mret, M_ret.
       cbn.
       repeat (first [rewrite Hcsv | rewrite Hpng | rewrite Httf | rewrite Hout
                     | rewrite Hrecords | rewrite Hbg | rewrite Hfont]; cbn).
       rewrite fold_left_app_concat. cbn. reflexivity. }
  reflexivity.
Qed.

(** * Further properties of the program *)

(** ** sanitizeFilename: composition, length, fixed points, collisions *)

Lemma map_bytes_app f a b : map_bytes f (a +:+ b) = map_bytes f a +:+ map_bytes f b.
Proof.
  induction a as [|c a IH]; [reflexivity|].
  change (String (f c) (map_bytes f (a +:+ b))
          = String (f c) (map_bytes f a +:+ map_bytes f b)).
  rewrite IH. reflexivity.
Qed.

(** X1: sanitizing a concatenation is concatenating the sanitized parts,
    wherever the string is cut (also in the middle of a multi-byte
    character). *)
Theorem sanitizeFilename_app (a b : string) :
  sanitizeFilename (a +:+ b) = sanitizeFilename a +:+ sanitizeFilename b.
Proof.
  rewrite !sanitizeFilename_filter, map_bytes_app, filter_bytes_app. reflexivity.
Qed.

Lemma length_map_bytes f s : String.length (map_bytes f s) = String.length s.
Proof. induction s as [|c s IH]; [reflexivity|]. simpl. rewrite IH. reflexivity. Qed.

Lemma length_filter_bytes P s : (String.length (filter_bytes P s) <= String.length s)%nat.
Proof.
  induction s as [|c s IH]; [reflexivity|]. simpl. destruct (P c); simpl; lia.
Qed.

Lemma filter_bytes_same_length P s :
  String.length (filter_bytes P s) = String.length s -> all_bytes P s = true.
Proof.
  induction s as [|c s IH]; [reflexivity|]. simpl.
  pose proof (length_filter_bytes P s) as Hle.
  destruct (P c); simpl; intros H; [apply IH; lia | lia].
Qed.

Lemma all_bytes_map_space s :
  all_bytes word_byte (map_bytes space_to_underscore s) = true ->
  all_bytes (fun c => word_byte c || Ascii.eqb c " ") s = true.
Proof.
  induction s as [|c s IH]; [reflexivity|]. simpl. intros H.
  apply andb_true_iff in H. destruct H as [Hc Hs]. rewrite (IH Hs), andb_true_r.
  unfold space_to_underscore in Hc. destruct (Ascii.eqb c " ").
  - apply orb_true_r.
  - rewrite Hc. reflexivity.
Qed.

(** X2: the sanitized name is never longer than the name, and it has the
    same length exactly when no byte was removed: every byte of the name
    is a letter, a digit, an underscore or a space. *)
Theorem sanitizeFilename_length (s : string) :
  (String.length (sanitizeFilename s) <= String.length s)%nat
  /\ (String.length (sanitizeFilename s) = String.length s
      <-> all_bytes (fun c => word_byte c || Ascii.eqb c " ") s = true).
Proof.
  rewrite sanitizeFilename_filter.
  pose proof (length_map_bytes space_to_underscore s) as Hm.
  pose proof (length_filter_bytes word_byte (map_bytes space_to_underscore s)) as Hf.
  split; [lia|]. split.
  - intros H. apply all_bytes_map_space, filter_bytes_same_length. lia.
  - intros H. rewrite <- Hm. f_equal. apply filter_bytes_id. clear Hm Hf.
    induction s as [|c s IH]; [reflexivity|]. simpl in *.
    apply andb_true_iff in H. destruct H as [Hc Hs]. rewrite (IH Hs), andb_true_r.
    unfold space_to_underscore. destruct (Ascii.eqb c " "); [reflexivity|].
    rewrite orb_false_r in Hc. exact Hc.
Qed.

(** X3: the names that sanitization leaves as they are, are exactly the
    names made of letters, digits and underscores. *)
Theorem sanitizeFilename_fixed_points (s : string) :
  sanitizeFilename s = s <-> all_bytes word_byte s = true.
Proof.
  split.
  - intros E. rewrite <- E, sanitizeFilename_filter. apply all_bytes_filter.
  - intros H. rewrite sanitizeFilename_filter, (map_space_id _ H). apply filter_bytes_id, H.
Qed.

(** X4: what sanitization drops cannot tell two names apart: a byte outside
    [[A-Za-z0-9_ ]] anywhere in a name can be left out, and a space can be
    written as an underscore, without changing the file name. *)
Theorem sanitizeFilename_collisions (a b : string) (c : ascii)
        (Hc : word_byte c = false) (Hs : c <> " "%char) :
  sanitizeFilename (a +:+ String c b) = sanitizeFilename (a +:+ b)
  /\ sanitizeFilename (a +:+ String " " b) = sanitizeFilename (a +:+ String "_" b).
Proof.
  rewrite !sanitizeFilename_filter, !map_bytes_app, !filter_bytes_app. split.
  - f_equal. cbn [map_bytes filter_bytes].
    unfold space_to_underscore at 1.
    destruct (Ascii.eqb_spec c " ") as [E|_]; [contradiction|].
    rewrite Hc. reflexivity.
  - reflexivity.
Qed.

Lemma sanitizeFilename_collisions_witness :
  sanitizeFilename ("A" +:+ String "!" "B") = sanitizeFilename ("A" +:+ "B").
Proof.
  exact (proj1 (sanitizeFilename_collisions "A" "B" "!"%char eq_refl
                  ltac:(discriminate))).
Defined.

(** ** readNamesFromCSV: errors *)

(** X5: when the file is missing, is a directory, or does not parse,
    [readNamesFromCSV] returns that very error and no names; it does not
    stop the program itself, and it leaves the file system and the images
    as they were (the file was opened, nothing else). *)
Theorem readNamesFromCSV_error env path w e
        (Herr : match input w path with
                | Ok content => csv_ReadAll env content
                | Err err => Err err
                end = Err e) :
  snd (readNamesFromCSV env path w) = Val (Err e)
  /\ fs (fst (readNamesFromCSV env path w)) = fs w
  /\ heap (fst (readNamesFromCSV env path w)) = heap w
  /\ trace (fst (readNamesFromCSV env path w)) = Open path :: trace w.
Proof.
  unfold input in Herr.
  unfold readNamesFromCSV, os_Open, csv_records, emit, get, modify, mbind, M_bind, mret, M_ret.
  cbn. destruct (fs w !! path) as [n|]; cbn.
  - destruct (contents n) as [content|err]; cbn.
    + rewrite Herr. cbn. repeat split.
    + injection Herr as ->. repeat split.
  - injection Herr as <-. repeat split.
Qed.

Lemma readNamesFromCSV_error_witness :
  snd (readNamesFromCSV Demo.env "nowhere.csv" Demo.world)
  = Val (Err "no such file or directory").
Proof.
  exact (proj1 (readNamesFromCSV_error Demo.env "nowhere.csv" Demo.world
                  "no such file or directory" ltac:(vm_compute; reflexivity))).
Defined.

(** ** getTextWidth: concatenation *)

Lemma wrap_add_l bits x y : 0 < bits ->
  GoInt.wrap bits (GoInt.wrap bits x + y) = GoInt.wrap bits (x + y).
Proof.
  intros Hb. unfold GoInt.wrap. f_equal.
  replace ((x + 2 ^ (bits - 1)) mod 2 ^ bits - 2 ^ (bits - 1) + y + 2 ^ (bits - 1))
    with ((x + 2 ^ (bits - 1)) mod 2 ^ bits + y) by lia.
  rewrite Z.add_mod_idemp_l by (apply Z.pow_nonzero; lia). f_equal. lia.
Qed.

Lemma int_add_l x y : GoInt.int (GoInt.int x + y) = GoInt.int (x + y).
Proof. apply wrap_add_l. lia. Qed.

Lemma int_add_r x y : GoInt.int (x + GoInt.int y) = GoInt.int (x + y).
Proof. rewrite (Z.add_comm x), int_add_l, Z.add_comm. reflexivity. Qed.

Lemma int_idem x : GoInt.int (GoInt.int x) = GoInt.int x.
Proof. pose proof (int_add_l x 0) as H. rewrite !Z.add_0_r in H. exact H. Qed.

(** Up to an ASCII prefix the runes of a string are those of the prefix
    followed by those of the rest. *)
Lemma chunks_ascii_app a b :
  Strings.isASCII a = true ->
  Utf8.chunks (a +:+ b) = (Utf8.chunks a ++ Utf8.chunks b)%list.
Proof.
  induction a as [|c a IH]; intros H; [reflexivity|].
  cbn [Strings.isASCII] in H. apply andb_true_iff in H. destruct H as [Hc Ha].
  change (String c a +:+ b) with (String c (a +:+ b)).
  rewrite !chunks_cons.
  assert (E : forall t, Utf8.DecodeRuneInString (String c t) = (Utf8.byte c, 1%nat)).
  { intros t. unfold Utf8.DecodeRuneInString. rewrite Hc. reflexivity. }
  rewrite !E. cbn [fst snd Utf8.take Utf8.drop]. rewrite (IH Ha). reflexivity.
Qed.

Section WidthSum.

Variables (ovf : Z -> float64 -> Z) (font : Font) (size : float64).

Let step (width ch : Z) : Z :=
  GoInt.int (width + GoInt.int (HMetric_AdvanceWidth font (Int26_6_of_float ovf size)
                                                     (Index font ch))).

Lemma width_fold_acc rs acc :
  fold_left step rs (GoInt.int acc) = GoInt.int (acc + fold_left step rs 0).
Proof.
  revert acc. induction rs as [|r rs IH]; intros acc; cbn [fold_left].
  - rewrite Z.add_0_r. reflexivity.
  - set (aw := GoInt.int (HMetric_AdvanceWidth font (Int26_6_of_float ovf size)
                                               (Index font r))).
    assert (E1 : step (GoInt.int acc) r = GoInt.int (acc + aw))
      by (unfold step; apply int_add_l).
    assert (E2 : step 0 r = GoInt.int (0 + aw)) by reflexivity.
    rewrite E1, E2, !IH, int_add_r. f_equal. lia.
Qed.

(** X6: for an ASCII-only prefix, the width of a concatenation is the sum
    of the widths of the parts (in 64-bit integer arithmetic); the empty
    text has width 0. *)
Theorem getTextWidth_app (a b : string) (Ha : Strings.isASCII a = true) :
  getTextWidth ovf (a +:+ b) font size
  = GoInt.int (getTextWidth ovf a font size + getTextWidth ovf b font size)
  /\ getTextWidth ovf EmptyString font size = 0.
Proof.
  split; [|reflexivity].
  unfold getTextWidth, Utf8.runes. rewrite (chunks_ascii_app a b Ha), map_app, fold_left_app.
  fold step.
  assert (E : fold_left step (map fst (Utf8.chunks a)) 0
              = GoInt.int (fold_left step (map fst (Utf8.chunks a)) 0)).
  { change 0 with (GoInt.int 0) at 1. rewrite width_fold_acc, Z.add_0_l. reflexivity. }
  rewrite E at 1. rewrite width_fold_acc. reflexivity.
Qed.

End WidthSum.

Lemma getTextWidth_app_witness :
  getTextWidth indefinite ("Bob " +:+ Demo.two_em_dash) Demo.font (Float64.of_int 10) = 40.
Proof.
  exact (proj1 (getTextWidth_app indefinite Demo.font (Float64.of_int 10)
                  "Bob " Demo.two_em_dash eq_refl)).
Defined.

(** ** The anchor at binary fractions, and outside the image *)

Lemma mul_pow2_signed s q e s2 j :
  Z.pos (digits2_pos q) = 53 -> - 1074 <= e - j -> e - j <= 971 ->
  Float64.mul (S754_finite s q e) (S754_finite s2 (Pos.iter xO 1%positive 52) (- 52 - j))
  = S754_finite (xorb s s2) q (e - j).
Proof.
  intros Hd Hlo Hhi. unfold Float64.mul, SFmul.
  rewrite mul_iter_xO.
  replace (e + (- 52 - j)) with (e - j - Z.pos 52) by lia.
  apply binary_round_aux_shifted.
  - unfold canonical_mantissa. apply Z.eqb_eq. rewrite Hd.
    unfold fexp, SpecFloat.emin, Float64.prec, Float64.emax. lia.
  - unfold Float64.emax, Float64.prec. lia.
Qed.

(** The integer part of [H * 2^i] is [H * 2^i]. *)
Lemma trunc_mul_pow2 (H i : Z) :
  0 < H < 2 ^ 53 -> 0 <= i <= 900 ->
  Float64.trunc (Float64.mul (Float64.of_int H) (Float64.pow2neg (- i))) = Some (H * 2 ^ i).
Proof.
  intros HH Hi. destruct (of_int_exact H HH) as (q & e & -> & Hd & He & Hq).
  rewrite mul_pow2neg by lia. unfold Float64.trunc. f_equal.
  replace (e - - i) with (e + i) by lia.
  destruct (Z.leb_spec 0 (e + i)) as [Hpos|Hneg].
  - rewrite Z.shiftl_mul_pow2 by lia. rewrite Hq, <- Z.mul_assoc, <- Z.pow_add_r by lia.
    f_equal. f_equal. lia.
  - rewrite Z.shiftr_div_pow2 by lia. rewrite Hq.
    replace (- e) with (i + - (e + i)) by lia.
    rewrite Z.pow_add_r, Z.mul_assoc by lia.
    apply Z.div_mul. apply Z.pow_nonzero; lia.
Qed.

(** The integer part of [H * (- 2^(-j))] is [- floor(H / 2^j)]. *)
Lemma trunc_mul_pow2neg_opp (H j : Z) :
  0 < H < 2 ^ 53 -> 0 <= j <= 1000 ->
  Float64.trunc (Float64.mul (Float64.of_int H) (SFopp (Float64.pow2neg j)))
  = Some (- (H / 2 ^ j)).
Proof.
  intros HH Hj. destruct (of_int_exact H HH) as (q & e & -> & Hd & He & Hq).
  cbn [SFopp Float64.pow2neg negb]. rewrite mul_pow2_signed by lia.
  cbn [xorb]. unfold Float64.trunc. f_equal. f_equal.
  destruct (Z.leb_spec 0 (e - j)) as [Hpos|Hneg].
  - assert (e = 0) by lia. assert (j = 0) by lia. subst e j.
    rewrite Z.shiftl_0_r, Hq. simpl. rewrite Z.div_1_r. lia.
  - rewrite Z.shiftr_div_pow2 by lia. rewrite Hq.
    replace (- (e - j)) with (j + - e) by lia.
    rewrite Z.pow_add_r by lia.
    rewrite Z.div_mul_cancel_r; [reflexivity| |]; apply Z.pow_nonzero; lia.
Qed.

(** X7: at a percentage [2^(-j)] (1, 1/2, 1/4, ...) of an image dimension
    [N] the product is exact: the vertical anchor is [N - floor(N / 2^j)],
    the left-aligned horizontal anchor is [floor(N / 2^j)], and both lie
    between 0 and [N]. *)
Theorem anchor_at_binary_fraction ovf (N j : Z) (HN : 0 < N < 2 ^ 53) (Hj : 0 <= j <= 1000) :
  startY ovf N (Float64.pow2neg j) = N - N / 2 ^ j
  /\ startX ovf N (Float64.pow2neg j) false 0 = N / 2 ^ j
  /\ 0 <= startY ovf N (Float64.pow2neg j) <= N
  /\ 0 <= startX ovf N (Float64.pow2neg j) false 0 <= N.
Proof.
  assert (0 < 2 ^ j) by (apply Z.pow_pos_nonneg; lia).
  pose proof (Z.div_pos N (2 ^ j) ltac:(lia) ltac:(lia)).
  pose proof (Z.div_le_upper_bound N (2 ^ j) N ltac:(lia) ltac:(nia)).
  assert (Ey : startY ovf N (Float64.pow2neg j) = N - N / 2 ^ j).
  { unfold startY. rewrite to_int_mul_pow2neg by lia. apply int_small. lia. }
  assert (Ex : startX ovf N (Float64.pow2neg j) false 0 = N / 2 ^ j).
  { unfold startX. apply to_int_mul_pow2neg; lia. }
  rewrite Ey, Ex. repeat split; lia.
Qed.

Lemma anchor_at_binary_fraction_witness :
  startY indefinite 1080 (Float64.pow2neg 2) = 810.
Proof.
  exact (proj1 (anchor_at_binary_fraction indefinite 1080 2 ltac:(lia) ltac:(lia))).
Defined.

(** X8: the percentages are not clamped to the image.  A heightPercent
    [2^i] (1, 2, 4, ...) gives [y = H - H * 2^i], at or above the top edge;
    a negative heightPercent [- 2^(-j)] gives [y = H + floor(H / 2^j)], at
    or below the bottom edge [H]. *)
Theorem anchor_is_not_clamped ovf (H i j : Z)
        (HH : 0 < H < 2 ^ 53) (Hi : 0 <= i <= 8) (Hj : 0 <= j <= 1000) :
  startY ovf H (Float64.pow2neg (- i)) = H - H * 2 ^ i
  /\ startY ovf H (Float64.pow2neg (- i)) <= 0
  /\ startY ovf H (SFopp (Float64.pow2neg j)) = H + H / 2 ^ j
  /\ H <= startY ovf H (SFopp (Float64.pow2neg j)).
Proof.
  assert (0 < 2 ^ j) by (apply Z.pow_pos_nonneg; lia).
  pose proof (Z.div_pos H (2 ^ j) ltac:(lia) ltac:(lia)).
  pose proof (Z.div_le_upper_bound H (2 ^ j) H ltac:(lia) ltac:(nia)).
  assert (0 < 2 ^ i) by (apply Z.pow_pos_nonneg; lia).
  assert (2 ^ i <= 2 ^ 8) by (apply Z.pow_le_mono_r; lia).
  change (2 ^ 8) with 256 in *.
  assert (Ei : startY ovf H (Float64.pow2neg (- i)) = H - H * 2 ^ i).
  { unfold startY. rewrite (to_int_trunc ovf 64 _ (H * 2 ^ i)).
    - apply int_small. nia.
    - apply trunc_mul_pow2; lia.
    - nia. }
  assert (Ej : startY ovf H (SFopp (Float64.pow2neg j)) = H + H / 2 ^ j).
  { unfold startY. rewrite (to_int_trunc ovf 64 _ (- (H / 2 ^ j))).
    - rewrite Z.sub_opp_r. apply int_small. lia.
    - apply trunc_mul_pow2neg_opp; lia.
    - lia. }
  rewrite Ei, Ej. repeat split; nia.
Qed.

Lemma anchor_is_not_clamped_witness :
  startY indefinite 1080 (Float64.pow2neg (- 1)) = - 1080
  /\ startY indefinite 1080 (SFopp (Float64.pow2neg 1)) = 1620.
Proof.
  pose proof (anchor_is_not_clamped indefinite 1080 1 1 ltac:(lia) ltac:(lia) ltac:(lia))
    as (E1 & _ & E2 & _).
  split; [exact E1 | exact E2].
Defined.

(** ** main: validation of the inputs *)

(** X9: when one of the three required paths is empty, [main] prints three
    usage lines and returns normally: no path is checked, nothing is read
    or written, and the exit is not a failure. *)
Theorem main_requires_inputs env flags w
        (Hempty : csvFilePath flags = "" \/ imagePath flags = "" \/ fontPath flags = "") :
  snd (main env flags w) = Stop Returned
  /\ fs (fst (main env flags w)) = fs w
  /\ heap (fst (main env flags w)) = heap w
  /\ exists l1 l2 l3,
      trace (fst (main env flags w))
      = Println (Usage l3) :: Println (Usage l2) :: Println (Usage l1) :: trace w.
Proof.
  unfold main.
  assert (E : (String.eqb (csvFilePath flags) "" || String.eqb (imagePath flags) ""
               || String.eqb (fontPath flags) "")%bool = true).
  { destruct Hempty as [E | [E | E]]; rewrite E; cbn; rewrite ?orb_true_r; reflexivity. }
  rewrite E. unfold emit, modify, stop, mbind, M_bind. cbn. repeat split; eauto.
Qed.

Lemma main_requires_inputs_witness :
  snd (main Demo.env (flags_at "" "out") Demo.world) = Stop Returned.
Proof.
  exact (proj1 (main_requires_inputs Demo.env (flags_at "" "out") Demo.world
                  (or_introl eq_refl))).
Defined.

(** X10: when the three required paths are given but the names file, the
    image, the font or the output directory does not exist, [main] exits
    with status 1 after existence checks alone: nothing is opened, the
    color is neither looked up nor printed, the file system and the images
    are untouched. *)
Theorem main_missing_path_is_fatal env flags w
        (Hreq : (String.eqb (csvFilePath flags) "" || String.eqb (imagePath flags) ""
                 || String.eqb (fontPath flags) "")%bool = false)
        (Hmissing : fs w !! csvFilePath flags = None \/ fs w !! imagePath flags = None
                    \/ fs w !! fontPath flags = None \/ fs w !! outputPath flags = None) :
  snd (main env flags w) = Stop (Exited 1)
  /\ fs (fst (main env flags w)) = fs w
  /\ heap (fst (main env flags w)) = heap w
  /\ exists new, trace (fst (main env flags w)) = (new ++ trace w)%list
                 /\ forallb check_event new = true.
Proof.
  unfold main. rewrite Hreq.
  unfold notExist, fatalf, emit, get, modify, stop, mbind, M_bind, mret, M_ret. cbn.
  destruct (fs w !! csvFilePath flags) as [n1|]; cbn;
    [destruct (fs w !! imagePath flags) as [n2|]; cbn;
     [destruct (fs w !! fontPath flags) as [n3|]; cbn;
      [destruct (fs w !! outputPath flags) as [n4|]; cbn;
       [exfalso; destruct Hmissing as [?|[?|[?|?]]]; discriminate|]|]|]|];
    repeat split;
    first [eexists [_; _]; split; reflexivity
          | eexists [_; _; _]; split; reflexivity
          | eexists [_; _; _; _]; split; reflexivity
          | eexists [_; _; _; _; _]; split; reflexivity].
Qed.

Lemma main_missing_path_is_fatal_witness :
  snd (main Demo.env (flags_at "names.csv" "nowhere") Demo.world) = Stop (Exited 1).
Proof.
  refine (proj1 (main_missing_path_is_fatal Demo.env (flags_at "names.csv" "nowhere")
                   Demo.world eq_refl _)).
  right. right. right. vm_compute. reflexivity.
Defined.

(** ** main: failing inputs *)

Local Ltac harmless_leaf :=
  split; [solve [eauto]|]; split; [reflexivity|];
  first [eexists [_]; split; reflexivity
        | eexists [_; _]; split; reflexivity
        | eexists [_; _; _]; split; reflexivity
        | eexists [_; _; _; _]; split; reflexivity
        | eexists [_; _; _; _; _]; split; reflexivity
        | eexists [_; _; _; _; _; _]; split; reflexivity
        | eexists [_; _; _; _; _; _; _]; split; reflexivity
        | eexists [_; _; _; _; _; _; _; _]; split; reflexivity
        | eexists [_; _; _; _; _; _; _; _; _]; split; reflexivity].

(** X11: when the names file cannot be read or parsed, the image cannot be
    read or decoded, or the font cannot be read or parsed, [main] stops
    without creating or encoding anything: the file system is as before
    and the only events are checks, console lines and opening inputs. *)
Theorem main_input_error_writes_nothing env flags w
        (Herr : (is_err (input_names env flags w) || is_err (input_image env flags w)
                 || is_err (input_font env flags w))%bool = true) :
  (exists e, snd (main env flags w) = Stop e)
  /\ fs (fst (main env flags w)) = fs w
  /\ exists new, trace (fst (main env flags w)) = (new ++ trace w)%list
                 /\ forallb harmless_event new = true.
Proof.
  unfold input_names, input_image, input_font, input in Herr. revert Herr.
  unfold main.
  destruct (String.eqb (csvFilePath flags) "" || String.eqb (imagePath flags) ""
            || String.eqb (fontPath flags) "")%bool.
  { intros _. unfold emit, modify, stop, mbind, M_bind. cbn. harmless_leaf. }
  unfold readNamesFromCSV, csv_records, notExist, os_Open, alloc, fatalf, emit, get,
    modify, stop, mbind, M_bind, mret, M_ret.
  cbn.
  destruct (fs w !! csvFilePath flags) as [n1|] eqn:E1; cbn; [|intros _; harmless_leaf].
  destruct (fs w !! imagePath flags) as [n2|] eqn:E2; cbn; [|intros _; harmless_leaf].
  destruct (fs w !! fontPath flags) as [n3|] eqn:E3; cbn; [|intros _; harmless_leaf].
  destruct (fs w !! outputPath flags) as [n4|] eqn:E4; cbn; [|intros _; harmless_leaf].
  destruct (lookupColor env (srcColorName flags)) as [color|]; cbn;
    [|intros _; harmless_leaf].
  rewrite ?E1; cbn.
  destruct n1 as [csv|]; cbn; [|intros _; harmless_leaf].
  destruct (csv_ReadAll env csv) as [records|e1]; cbn; [|intros _; harmless_leaf].
  rewrite ?E2; cbn.
  destruct n2 as [png|]; cbn; [|intros _; harmless_leaf].
  destruct (image_Decode env png) as [bg|e2]; cbn; [|intros _; harmless_leaf].
  rewrite ?E3; cbn.
  destruct n3 as [ttf|]; cbn; [|intros _; harmless_leaf].
  destruct (freetype_ParseFont env ttf) as [font|e3]; cbn; [|intros _; harmless_leaf].
  discriminate.
Qed.

Lemma main_input_error_writes_nothing_witness :
  fs (fst (main Demo.env (flags_at "out" "out") Demo.world)) = fs Demo.world.
Proof.
  exact (proj1 (proj2 (main_input_error_writes_nothing Demo.env (flags_at "out" "out")
                         Demo.world ltac:(vm_compute; reflexivity)))).
Defined.

(** ** main: from the inputs to the certificates *)

Lemma encoded_setup new t :
  forallb setup_event new = true -> encoded_rev (new ++ t) = encoded_rev t.
Proof.
  induction new as [|e new IH]; [reflexivity|]. simpl. intros H.
  apply andb_true_iff in H. destruct H as [He Hn].
  destruct e; try discriminate; apply IH, Hn.
Qed.

Lemma main_setup env flags w csv png ttf out records color bg font
      (Hreq : (String.eqb (csvFilePath flags) "" || String.eqb (imagePath flags) ""
               || String.eqb (fontPath flags) "")%bool = false)
      (Hcsv : fs w !! csvFilePath flags = Some (File csv))
      (Hpng : fs w !! imagePath flags = Some (File png))
      (Httf : fs w !! fontPath flags = Some (File ttf))
      (Hout : fs w !! outputPath flags = Some out)
      (Hcolor : lookupColor env (srcColorName flags) = Some color)
      (Hrecords : csv_ReadAll env csv = Ok records)
      (Hbg : image_Decode env png = Ok bg)
      (Hfont : freetype_ParseFont env ttf = Ok font) :
  exists new,
    forallb setup_event new = true
    /\ main env flags w
       = forEach (concat records)
                 (loop_body env flags color (next w) font
                            (Image.Dx (Image.Bounds bg)) (Image.Dy (Image.Bounds bg)))
                 {| fs := fs w; heap := <[next w := bg]> (heap w);
                    next := S (next w); trace := (new ++ trace w)%list |}.
Proof.
  eexists [_; _; _; _; _; _; _; _; _]. split; [|unfold main; rewrite Hreq, Hcolor].
  2: { unfold readNamesFromCSV, csv_records, notExist, os_Open, alloc, fatalf, emit, get,
         modify, stop, mbind, M_bind, mret, M_ret.
       cbn.
       repeat (first [rewrite Hcsv | rewrite Hpng | rewrite Httf | rewrite Hout
                     | rewrite Hrecords | rewrite Hbg | rewrite Hfont]; cbn).
       rewrite fold_left_app_concat. cbn. reflexivity. }
  reflexivity.
Qed.

(** X12: end to end.  When the inputs exist, the color resolves and the three
    inputs parse, what [main] hands to the encoder is, in source order, the
    certificate of every field of every CSV record, up to the first name
    that fails; if [main] returns normally, there is one for every name.
    The decoded background is in the heap, unchanged, at the end. *)
Theorem main_end_to_end env flags w csv png ttf out records color bg font
      (Hreq : (String.eqb (csvFilePath flags) "" || String.eqb (imagePath flags) ""
               || String.eqb (fontPath flags) "")%bool = false)
      (Hcsv : fs w !! csvFilePath flags = Some (File csv))
      (Hpng : fs w !! imagePath flags = Some (File png))
      (Httf : fs w !! fontPath flags = Some (File ttf))
      (Hout : fs w !! outputPath flags = Some out)
      (Hcolor : lookupColor env (srcColorName flags) = Some color)
      (Hrecords : csv_ReadAll env csv = Ok records)
      (Hbg : image_Decode env png = Ok bg)
      (Hfont : freetype_ParseFont env ttf = Ok font) :
  heap (fst (main env flags w)) !! next w = Some bg
  /\ exists k, (k <= length (concat records))%nat
               /\ encoded (fst (main env flags w))
                  = (encoded w ++ map (certificate env flags color bg font)
                                       (take k (concat records)))%list
               /\ (snd (main env flags w) = Val tt -> k = length (concat records)).
Proof.
  destruct (main_setup env flags w csv png ttf out records color bg font
              Hreq Hcsv Hpng Httf Hout Hcolor Hrecords Hbg Hfont) as (new0 & Hq & ->).
  set (w0 := {| fs := fs w; heap := <[next w := bg]> (heap w);
                next := S (next w); trace := (new0 ++ trace w)%list |}).
  pose proof (forEach_loop env flags color (next w) font bg (concat records) w0
                (lookup_insert_eq _ _ _) ltac:(cbn; lia)) as H.
  cbv zeta in H. destruct H as (Hheap & new & k & Htr & _ & Hk & Henc & Hval).
  split; [exact Hheap|]. exists k. split; [exact Hk|]. split; [|exact Hval].
  unfold encoded. rewrite Htr. subst w0. cbn [trace].
  rewrite encoded_rev_app, (encoded_setup new0 _ Hq), rev_app_distr, Henc. reflexivity.
Qed.

Lemma main_end_to_end_witness :
  heap (fst (main Demo.env (Demo.flags "Black") Demo.world)) !! next Demo.world
  = Some Demo.background.
Proof.
  exact (proj1 (main_end_to_end Demo.env (Demo.flags "Black") Demo.world
                  Demo.names_csv "png" "ttf" Dir
                  [["Alice Jones"]; ["Bob Smith"]; ["Charlie Brown"]]
                  Demo.black Demo.background Demo.font
                  eq_refl ltac:(vm_compute; reflexivity) ltac:(vm_compute; reflexivity)
                  ltac:(vm_compute; reflexivity) ltac:(vm_compute; reflexivity)
                  ltac:(vm_compute; reflexivity) ltac:(vm_compute; reflexivity)
                  eq_refl eq_refl)).
Defined.

(** ** main: the case of the color name *)

Lemma loop_body_with_color env flags s t :
  loop_body env (with_color flags s) = loop_body env (with_color flags t).
Proof. reflexivity. Qed.

(** X13: the whole run is blind to the case of the letters of the color
    name: two color names that differ only in letter case give the same
    result, the same file system, images and events. *)
Theorem main_color_case_insensitive env flags w (s t : string)
        (Hst : same_letters s t = true) :
  main env (with_color flags s) w = main env (with_color flags t) w.
Proof.
  unfold main, lookupColor.
  cbn [with_color csvFilePath imagePath outputPath fontPath fontSize srcColorName
       widthPercent heightPercent centerText].
  rewrite (ToLower_same (unicode_lower env) s t Hst).
  rewrite (loop_body_with_color env flags s t). reflexivity.
Qed.

Lemma main_color_case_insensitive_witness :
  main Demo.env (with_color (Demo.flags "") "BLACK") Demo.world
  = main Demo.env (with_color (Demo.flags "") "black") Demo.world.
Proof.
  exact (main_color_case_insensitive Demo.env (Demo.flags "") Demo.world
           "BLACK" "black" eq_refl).
Defined.

(** ** The batch loop and the file system *)

Section BatchFiles.

Variables (env : Env) (flags : Flags) (color : Image.quad) (orig : nat) (font : Font).
Variable bg : Image.Image.

Local Arguments Image.Draw : simpl never.
Local Arguments Image.NewRGBA : simpl never.
Local Arguments Image.Bounds : simpl never.
Local Arguments Freetype.draw_string : simpl never.
Local Arguments Freetype.recalc : simpl never.
Local Arguments Freetype.Pt : simpl never.
Local Arguments startX : simpl never.
Local Arguments startY : simpl never.
Local Arguments getTextWidth : simpl never.
Local Arguments sanitizeFilename : simpl never.
Local Arguments Float64.of_int : simpl never.

Local Ltac files_leaf Hbg :=
  split; [intros q Hq; rewrite ?lookup_insert_ne by congruence; reflexivity|];
  split; [first [discriminate
                | intros _; rewrite insert_insert_eq; reflexivity]|];
  first [discriminate
        | intros _; split; [reflexivity|]; split; [reflexivity|];
          rewrite !lookup_insert_ne by lia; exact Hbg].

(** One iteration and the files: only the path of the name can change; on
    success it holds the encoding of the certificate; when the drawing
    fails nothing is created. *)
Lemma loop_body_files name w :
  heap w !! orig = Some bg -> (orig < next w)%nat ->
  let res := loop_body env flags color orig font
                       (Image.Dx (Image.Bounds bg)) (Image.Dy (Image.Bounds bg)) name w in
  (forall q, q <> output_path env flags name -> fs (fst res) !! q = fs w !! q)
  /\ (snd res = Val tt ->
      fs (fst res)
      = <[output_path env flags name :=
            File (encoding env (snd (certificate env flags color bg font name)))]> (fs w))
  /\ (is_err (snd (render env flags color bg font name)) = true ->
      snd res = Stop (Exited 1) /\ fs (fst res) = fs w
      /\ heap (fst res) !! orig = Some bg).
Proof.
  intros Hbg Hfresh. cbv zeta. unfold certificate, encoding.
  unfold loop_body, NewRGBA_at, Draw_at, DrawString_at, Encode_at, os_Create, fatalf,
    alloc, load, store, set_file, emit, get, modify, stop, mbind, M_bind, mret, M_ret.
  cbn. rewrite Hbg. cbn.
  repeat (first [rewrite lookup_insert_eq | rewrite lookup_insert_ne by lia | rewrite Hbg]; cbn).
  change (Image.Draw (Image.NewRGBA (Image.Bounds bg))
                     (Image.Bounds (Image.NewRGBA (Image.Bounds bg))) bg Image.ZP)
    with (copy_of bg).
  unfold output_path, render. cbv zeta.
  match goal with
  | |- context [Freetype.draw_string env ?c name ?p (copy_of bg)] =>
      match c with
      | context [next w] =>
          rewrite (draw_string_ctx env c
                     {| c_f := font; c_fontSize := fontSize flags;
                        c_dpi := Float64.of_int 72; c_src := color;
                        c_clip := Image.Bounds (copy_of bg); c_dst := 0%nat;
                        c_scale := Freetype.recalc (conv_overflow env) (fontSize flags)
                                                   (Float64.of_int 72) |}
                     name p (copy_of bg) eq_refl eq_refl eq_refl eq_refl);
          set (pt := p) in *
      end
  end.
  destruct (Freetype.draw_string env _ name pt (copy_of bg)) as [img r] eqn:Eds.
  cbn.
  destruct r as [p|err]; cbn;
    [destruct (fs w !! filepath_Join env (outputPath flags) (sanitizeFilename name +:+ ".png"))
       as [[content|]|]; cbn;
     try (destruct (creatable env _); cbn;
          [rewrite ?lookup_insert_eq; cbn; destruct (png_Encode env img); cbn|])|];
    files_leaf Hbg.
Qed.

End BatchFiles.

Lemma batch_files_app env flags color bg font l1 l2 m :
  batch_files env flags color bg font (l1 ++ l2) m
  = batch_files env flags color bg font l2 (batch_files env flags color bg font l1 m).
Proof. unfold batch_files. apply fold_left_app. Qed.

Lemma batch_files_other env flags color bg font names m q :
  Forall (fun name => output_path env flags name <> q) names ->
  batch_files env flags color bg font names m !! q = m !! q.
Proof.
  revert m. induction names as [|name names IH]; intros m H; [reflexivity|].
  inversion H as [|? ? Hn Hrest]; subst.
  change (batch_files env flags color bg font (name :: names) m)
    with (batch_files env flags color bg font names
            (<[output_path env flags name :=
                 File (encoding env (snd (certificate env flags color bg font name)))]> m)).
  rewrite (IH _ Hrest). apply lookup_insert_ne. exact Hn.
Qed.

Section BatchRuns.

Variables (env : Env) (flags : Flags) (color : Image.quad) (orig : nat) (font : Font).
Variable bg : Image.Image.

Local Abbreviation body :=
  (loop_body env flags color orig font
             (Image.Dx (Image.Bounds bg)) (Image.Dy (Image.Bounds bg))).

(** X14: a batch writes to the output paths of its names only: every other
    path of the file system holds at the end what it held at the start,
    whether the batch completes or aborts. *)
Theorem batch_touches_only_output_paths names :
  forall w (Hbg : heap w !! orig = Some bg) (Hfresh : (orig < next w)%nat) q
         (Hq : Forall (fun name => output_path env flags name <> q) names),
    fs (fst (forEach names body w)) !! q = fs w !! q.
Proof.
  induction names as [|name names IH]; intros w Hbg Hfresh q Hq; [reflexivity|].
  inversion Hq as [|? ? Hn Hrest]; subst.
  rewrite forEach_cons.
  pose proof (loop_body_step env flags color orig font bg name w Hbg Hfresh) as Hs.
  pose proof (loop_body_files env flags color orig font bg name w Hbg Hfresh) as Hf.
  cbv zeta in Hs, Hf. destruct Hs as (Hbg1 & Hnext & _). destruct Hf as (Hother & _).
  specialize (Hother q ltac:(congruence)).
  destruct (body name w) as [w1 [[]|e]]; cbn [fst snd] in *.
  - rewrite (IH w1 Hbg1 ltac:(lia) q Hrest). exact Hother.
  - exact Hother.
Qed.

Lemma batch_success_files names :
  forall w, heap w !! orig = Some bg -> (orig < next w)%nat ->
    snd (forEach names body w) = Val tt ->
    fs (fst (forEach names body w)) = batch_files env flags color bg font names (fs w).
Proof.
  induction names as [|name names IH]; intros w Hbg Hfresh Hok; [reflexivity|].
  rewrite forEach_cons in *.
  pose proof (loop_body_step env flags color orig font bg name w Hbg Hfresh) as Hs.
  pose proof (loop_body_files env flags color orig font bg name w Hbg Hfresh) as Hf.
  cbv zeta in Hs, Hf. destruct Hs as (Hbg1 & Hnext & _). destruct Hf as (_ & Hval & _).
  destruct (body name w) as [w1 [[]|e]]; cbn [fst snd] in *; [|discriminate].
  rewrite (IH w1 Hbg1 ltac:(lia) Hok), (Hval eq_refl). reflexivity.
Qed.

(** X15: after a batch that completes, the file of a name holds the encoding
    of that name's certificate, unless a later name has the same output
    path: of names that sanitize alike, the last one wins. *)
Theorem batch_last_writer_wins l1 name l2 w
        (Hbg : heap w !! orig = Some bg) (Hfresh : (orig < next w)%nat)
        (Hok : snd (forEach (l1 ++ name :: l2) body w) = Val tt)
        (Hlater : Forall (fun n => output_path env flags n <> output_path env flags name) l2) :
  fs (fst (forEach (l1 ++ name :: l2) body w)) !! output_path env flags name
  = Some (File (encoding env (snd (certificate env flags color bg font name)))).
Proof.
  rewrite (batch_success_files _ w Hbg Hfresh Hok).
  rewrite batch_files_app.
  change (batch_files env flags color bg font (name :: l2) ?m)
    with (batch_files env flags color bg font l2
            (<[output_path env flags name :=
                 File (encoding env (snd (certificate env flags color bg font name)))]> m)).
  rewrite (batch_files_other _ _ _ _ _ l2 _ _ Hlater). apply lookup_insert_eq.
Qed.

(** X16: when the text of a name cannot be drawn, the batch stops there with
    exit status 1: no file is created for that name or for any name after
    it, and the background is untouched. *)
Theorem draw_error_aborts_batch name rest w
        (Hbg : heap w !! orig = Some bg) (Hfresh : (orig < next w)%nat)
        (Herr : is_err (snd (render env flags color bg font name)) = true) :
  snd (forEach (name :: rest) body w) = Stop (Exited 1)
  /\ fs (fst (forEach (name :: rest) body w)) = fs w
  /\ heap (fst (forEach (name :: rest) body w)) !! orig = Some bg.
Proof.
  rewrite forEach_cons.
  pose proof (loop_body_files env flags color orig font bg name w Hbg Hfresh) as Hf.
  cbv zeta in Hf. destruct Hf as (_ & _ & Hdraw). specialize (Hdraw Herr).
  destruct (body name w) as [w1 [[]|e]]; cbn [fst snd] in *.
  - destruct Hdraw as [? _]. discriminate.
  - exact Hdraw.
Qed.

End BatchRuns.

Lemma batch_touches_only_output_paths_witness :
  fs (fst (forEach ["Alice Jones"; "Bob Smith"]
             (loop_body Demo.env (Demo.flags "black") Demo.black 0%nat Demo.font
                        (Image.Dx (Image.Bounds Demo.background))
                        (Image.Dy (Image.Bounds Demo.background)))
             Demo.loaded)) !! "names.csv"
  = fs Demo.loaded !! "names.csv".
Proof.
  assert (Hbg : heap Demo.loaded !! 0%nat = Some Demo.background)
    by (vm_compute; reflexivity).
  assert (Hfresh : (0 < next Demo.loaded)%nat) by (cbn; lia).
  apply (batch_touches_only_output_paths Demo.env (Demo.flags "black") Demo.black 0%nat
           Demo.font Demo.background ["Alice Jones"; "Bob Smith"] Demo.loaded Hbg Hfresh).
  repeat constructor; vm_compute; discriminate.
Defined.

Lemma batch_last_writer_wins_witness :
  fs (fst (forEach (["A!B"] ++ "AB" :: [])
             (loop_body Demo.env (Demo.flags "black") Demo.black 0%nat Demo.font
                        (Image.Dx (Image.Bounds Demo.background))
                        (Image.Dy (Image.Bounds Demo.background)))
             Demo.loaded)) !! output_path Demo.env (Demo.flags "black") "AB"
  = Some (File (encoding Demo.env
                         (snd (certificate Demo.env (Demo.flags "black") Demo.black
                                           Demo.background Demo.font "AB")))).
Proof.
  assert (Hbg : heap Demo.loaded !! 0%nat = Some Demo.background)
    by (vm_compute; reflexivity).
  assert (Hfresh : (0 < next Demo.loaded)%nat) by (cbn; lia).
  apply (batch_last_writer_wins Demo.env (Demo.flags "black") Demo.black 0%nat
           Demo.font Demo.background ["A!B"] "AB" [] Demo.loaded Hbg Hfresh).
  - vm_compute. reflexivity.
  - constructor.
Defined.

Lemma draw_error_aborts_batch_witness :
  fs (fst (forEach ["Alice Jones"; "Bob Smith"]
             (loop_body broken_env (Demo.flags "black") Demo.black 0%nat Demo.font
                        (Image.Dx (Image.Bounds Demo.background))
                        (Image.Dy (Image.Bounds Demo.background)))
             Demo.loaded))
  = fs Demo.loaded.
Proof.
  assert (Hbg : heap Demo.loaded !! 0%nat = Some Demo.background)
    by (vm_compute; reflexivity).
  assert (Hfresh : (0 < next Demo.loaded)%nat) by (cbn; lia).
  exact (proj1 (proj2 (draw_error_aborts_batch broken_env (Demo.flags "black") Demo.black
                         0%nat Demo.font Demo.background "Alice Jones" ["Bob Smith"]
                         Demo.loaded Hbg Hfresh ltac:(vm_compute; reflexivity)))).
Defined.

(** ** getTextWidth: sizes below one point *)

Lemma scale_zero upem : 0 < upem < 2 ^ 31 -> TrueType.scale upem 0 = 0.
Proof.
  intros H. unfold TrueType.scale. cbn [Z.leb Z.compare]. rewrite Z.add_0_l.
  assert (Hq : 0 <= Z.quot upem 2 < upem).
  { pose proof (Z.quot_rem' upem 2). pose proof (Z.rem_bound_pos upem 2 ltac:(lia) ltac:(lia)).
    lia. }
  unfold GoInt.int32. rewrite (wrap_small 32 (Z.quot upem 2)) by lia.
  rewrite Z.quot_small by lia. reflexivity.
Qed.

(** X17: at a size whose integer part is 0 (below one point) every text
    measures 0 in every TrueType font, so centering does not move the
    anchor at such sizes. *)
Theorem getTextWidth_below_one_point ovf text upem cmap adv size
        (Hupem : 0 < upem < 2 ^ 31) (Hsize : Float64.trunc size = Some 0) :
  getTextWidth ovf text (TrueType.font upem cmap adv) size = 0.
Proof.
  unfold getTextWidth, Int26_6_of_float.
  rewrite (to_int_trunc ovf 32 size 0 Hsize) by lia.
  induction (Utf8.runes text) as [|r rs IH]; [reflexivity|].
  cbn [fold_left TrueType.font HMetric_AdvanceWidth Index].
  rewrite Z.mul_0_l. change (GoInt.int32 0) with 0.
  rewrite (scale_zero upem Hupem). exact IH.
Qed.

Lemma getTextWidth_below_one_point_witness :
  getTextWidth indefinite "Alice Jones"
               (TrueType.font 2048 (fun r => r) (fun _ => 1200)) (Float64.dyadic 1 1) = 0.
Proof.
  exact (getTextWidth_below_one_point indefinite "Alice Jones" 2048 (fun r => r)
           (fun _ => 1200) (Float64.dyadic 1 1) ltac:(lia) eq_refl).
Defined.
